(** * Operator console of the AI customer assistant: App.jsx

    A shallow embedding of [frontend/src/App.jsx]: the React state of the
    component, its event handlers cut at every [await], the metrics merge
    and the values derived for the dashboard.

    Conventions of the embedding.
    - A JavaScript number that only ever holds an integer (a counter, a
      rounded duration) is a [Z]; arithmetic that the source performs on
      doubles ([/], [*], [Math.round], [Math.random]) is performed on
      binary64 primitive floats, which are the doubles of JavaScript.
    - A property that may be [undefined] or [null] is an [option].
    - An object used as a map is the list of its own properties in creation
      order; [Object_entries] is the enumeration order of the language.
    - An [async] handler is split at its [await]s: the synchronous prefix
      registers a continuation under a request number, the settlement of
      the request resumes it.  State setters with an updater function read
      the state at the time of the resumption, as React does. *)

From Stdlib Require Import ZArith Lia Floats Bool Ascii.
From stdpp Require Import gmap strings list sorting pretty.

Local Open Scope Z_scope.

(** ** JavaScript numbers *)

(** [Number] of an integer: the nearest double. *)
Definition Z2Number (z : Z) : float :=
  SF2Prim (binary_normalize prec emax z 0 false).

(** [Math.round]: the integer nearest to a finite double, a tie going to
    the larger one.  The result is computed exactly from the mantissa and
    the exponent.  [NaN] and the infinities, which [Math.round] returns
    unchanged and which no caller below produces on integers of ordinary
    size, are sent to [0]. *)
Definition Math_round (x : float) : Z :=
  match Prim2SF x with
  | S754_finite s m e =>
      let v := if s then Z.neg m else Z.pos m in
      if 0 <=? e then v * 2 ^ e
      else (2 * v + 2 ^ (- e)) / 2 ^ (1 - e)
  | _ => 0
  end.

(** [x || d] on a number: [0] is the only falsy integer. *)
Definition num_or (x d : Z) : Z := if x =? 0 then d else x.

(** [x ?? d]. *)
Definition nullish {A : Type} (x : option A) (d : A) : A :=
  match x with Some v => v | None => d end.

(** ** Objects used as maps *)

(** The own properties of an object, in creation order. *)
Abbreviation JsObject := (list (string * Z)).

Definition digit_of (c : ascii) : option N :=
  let n := N_of_ascii c in
  if ((48 <=? n) && (n <=? 57))%N then Some (n - 48)%N else None.

Fixpoint parse_digits (acc : N) (s : string) : option N :=
  match s with
  | EmptyString => Some acc
  | String c s' =>
      match digit_of c with
      | Some d => parse_digits (10 * acc + d)%N s'
      | None => None
      end
  end.

(** A property key is an array index when it is the canonical decimal
    form of an integer between 0 and 2^32 - 2. *)
Definition array_index (k : string) : option N :=
  match k with
  | EmptyString => None
  | String c rest =>
      if (Ascii.eqb c "0" && negb (String.eqb rest ""))%bool then None
      else match parse_digits 0 k with
           | Some n => if (n <=? 4294967294)%N then Some n else None
           | None => None
           end
  end.

Definition is_index (k : string) : bool :=
  match array_index k with Some _ => true | None => false end.

Fixpoint insert_index (x : N * (string * Z)) (l : list (N * (string * Z)))
  : list (N * (string * Z)) :=
  match l with
  | [] => [x]
  | y :: l' => if (fst x <=? fst y)%N then x :: l else y :: insert_index x l'
  end.

Definition index_entries (o : JsObject) : list (N * (string * Z)) :=
  omap (fun kv => match array_index (fst kv) with
                  | Some n => Some (n, kv)
                  | None => None
                  end) o.

(** [Object.entries(o)]: the array-index keys in ascending numeric order,
    then the other keys in creation order. *)
Definition Object_entries (o : JsObject) : list (string * Z) :=
  map snd (foldr insert_index [] (index_entries o))
  ++ filter (fun kv => is_index (fst kv) = false) o.

(** ** [Array.prototype.sort] with the comparator [(a,b) => b[1] - a[1]] *)

(** The sort of the language is stable, so with a consistent comparator
    its result does not depend on the algorithm; insertion is used here.
    An entry moves in front of the entries whose count is not larger. *)
Fixpoint insert_desc (x : string * Z) (l : list (string * Z))
  : list (string * Z) :=
  match l with
  | [] => [x]
  | y :: l' => if snd y - snd x <=? 0 then x :: l else y :: insert_desc x l'
  end.

Definition sort_desc (l : list (string * Z)) : list (string * Z) :=
  foldr insert_desc [] l.

(** ** Data of the application *)

Record Ticket := mkTicket {
  ticket_id : string;
  subject : string;
  body : string
}.

(** A tag of a suggestion: a bare label, or an object with a [tag]
    property. *)
Inductive Tag :=
| TagLabel (label : string)
| TagObject (tag : string).

(** The body of a [/suggest] response. *)
Record Suggestion := mkSuggestion {
  sg_suggestion : option string;   (* .suggestion *)
  sg_explanation : option string;  (* .explanation *)
  sg_confidence : option float;    (* .confidence *)
  sg_tags : option (list Tag)      (* .tags *)
}.

(** The body posted to [/accept]. *)
Record Decision := mkDecision {
  d_ticket_id : string;            (* ticket_id *)
  action : string;
  d_tags : list Tag;               (* tags *)
  response_time_min : Z;
  final_reply : option string
}.

(** The dashboard state. *)
Record Metrics := mkMetrics {
  suggestionsShown : Z;
  suggestionsAccepted : Z;
  tagCounts : JsObject;
  responseTimes : list Z
}.

(** The body of a [/metrics] response. *)
Record MetricsData := mkMetricsData {
  suggestions_accepted : option Z;
  tag_counts : option JsObject
}.

(** The state of the component: one field for each [useState]. *)
Record AppState := mkAppState {
  tickets : list Ticket;
  selectedTicket : option Ticket;
  suggestion : option Suggestion;
  editedReply : string;
  loading : bool;
  metrics : Metrics
}.

Definition initialMetrics : Metrics :=
  {| suggestionsShown := 0; suggestionsAccepted := 0;
     tagCounts := []; responseTimes := [] |}.

Definition initialState : AppState :=
  {| tickets := []; selectedTicket := None; suggestion := None;
     editedReply := ""; loading := false; metrics := initialMetrics |}.

(** *** State setters *)

Definition setTickets (v : list Ticket) (s : AppState) : AppState :=
  {| tickets := v; selectedTicket := selectedTicket s;
     suggestion := suggestion s; editedReply := editedReply s;
     loading := loading s; metrics := metrics s |}.

Definition setSelectedTicket (v : option Ticket) (s : AppState) : AppState :=
  {| tickets := tickets s; selectedTicket := v;
     suggestion := suggestion s; editedReply := editedReply s;
     loading := loading s; metrics := metrics s |}.

Definition setSuggestion (v : option Suggestion) (s : AppState) : AppState :=
  {| tickets := tickets s; selectedTicket := selectedTicket s;
     suggestion := v; editedReply := editedReply s;
     loading := loading s; metrics := metrics s |}.

Definition setEditedReply (v : string) (s : AppState) : AppState :=
  {| tickets := tickets s; selectedTicket := selectedTicket s;
     suggestion := suggestion s; editedReply := v;
     loading := loading s; metrics := metrics s |}.

Definition setLoading (v : bool) (s : AppState) : AppState :=
  {| tickets := tickets s; selectedTicket := selectedTicket s;
     suggestion := suggestion s; editedReply := editedReply s;
     loading := v; metrics := metrics s |}.

(** [setMetrics(prev => f prev)]. *)
Definition setMetrics (f : Metrics -> Metrics) (s : AppState) : AppState :=
  {| tickets := tickets s; selectedTicket := selectedTicket s;
     suggestion := suggestion s; editedReply := editedReply s;
     loading := loading s; metrics := f (metrics s) |}.

(** *** Updaters passed to [setMetrics] *)

(** [prev => ({ ...prev, suggestionsShown: (prev.suggestionsShown || 0) + 1 })] *)
Definition incrementShown (prev : Metrics) : Metrics :=
  {| suggestionsShown := num_or (suggestionsShown prev) 0 + 1;
     suggestionsAccepted := suggestionsAccepted prev;
     tagCounts := tagCounts prev;
     responseTimes := responseTimes prev |}.

(** [prev => ({ ...prev, responseTimes: [...(prev.responseTimes || []), minutes] })];
    an array is never falsy. *)
Definition appendResponseTime (minutes : Z) (prev : Metrics) : Metrics :=
  {| suggestionsShown := suggestionsShown prev;
     suggestionsAccepted := suggestionsAccepted prev;
     tagCounts := tagCounts prev;
     responseTimes := responseTimes prev ++ [minutes] |}.

(** The updater of the polling effect:
    [suggestionsAccepted: Number(data.suggestions_accepted ?? prev.suggestionsAccepted ?? 0)],
    [tagCounts: data.tag_counts ?? prev.tagCounts]. *)
Definition mergePolled (data : MetricsData) (prev : Metrics) : Metrics :=
  {| suggestionsShown := suggestionsShown prev;
     suggestionsAccepted :=
       nullish (suggestions_accepted data)
               (nullish (Some (suggestionsAccepted prev)) 0);
     tagCounts := nullish (tag_counts data) (tagCounts prev);
     responseTimes := responseTimes prev |}.

(** The updater of the two accept handlers:
    [suggestionsAccepted: Number(d.suggestions_accepted ?? prev.suggestionsAccepted)],
    [tagCounts: d.tag_counts ?? prev.tagCounts]. *)
Definition mergeAfterAccept (d : MetricsData) (prev : Metrics) : Metrics :=
  {| suggestionsShown := suggestionsShown prev;
     suggestionsAccepted :=
       nullish (suggestions_accepted d) (suggestionsAccepted prev);
     tagCounts := nullish (tag_counts d) (tagCounts prev);
     responseTimes := responseTimes prev |}.

(** [res.data || {}] of a [/metrics] response. *)
Definition metricsBody (data : option MetricsData) : MetricsData :=
  nullish data {| suggestions_accepted := None; tag_counts := None |}.

(** ** Values derived for the dashboard *)

Definition acceptanceRate (m : Metrics) : Z :=
  if suggestionsShown m =? 0 then 0
  else Math_round
         (PrimFloat.mul
            (PrimFloat.div (Z2Number (num_or (suggestionsAccepted m) 0))
                           (Z2Number (suggestionsShown m)))
            (Z2Number 100)).

(** [reduce((a,b)=>a+b,0)] adds integers, which doubles do exactly as long
    as the sums stay below 2^53; the sum is therefore taken in [Z] and
    converted once. *)
Definition avgResponseTime (m : Metrics) : Z :=
  if 0 <? Z.of_nat (length (responseTimes m)) then
    Math_round
      (PrimFloat.div (Z2Number (foldl Z.add 0 (responseTimes m)))
                     (Z2Number (Z.of_nat (length (responseTimes m)))))
  else 0.

(** The template [`${tag} (${count})`].  The count is printed with all
    its decimal digits, which is what the template gives for a count
    below 10^21; from there on JavaScript prints a number in exponent
    notation, which is not modelled. *)
Definition renderTag (kv : string * Z) : string :=
  fst kv +:+ " (" +:+ pretty (snd kv) +:+ ")".

(** [Object.entries(metrics.tagCounts || {}).sort((a,b) => b[1] - a[1])] *)
Definition sortedTagEntries (m : Metrics) : list (string * Z) :=
  sort_desc (Object_entries (tagCounts m)).

(** [.slice(0, n)] *)
Definition slice0 {A : Type} (n : nat) (l : list A) : list A := firstn n l.

Definition topTags (m : Metrics) : string :=
  String.concat ", " (map renderTag (slice0 5 (sortedTagEntries m))).

(** The names of the first [n] sorted entries; [topTags] shows the first
    five. *)
Definition topTagNames (n : nat) (m : Metrics) : list string :=
  map fst (slice0 n (sortedTagEntries m)).

(** The tie rule of the specification, for comparison: the mapping is
    read in creation order, not in enumeration order. *)
Definition spec_topTagNames (n : nat) (m : Metrics) : list string :=
  map fst (firstn n (sort_desc (tagCounts m))).

(** The rate of the specification, for comparison: the exact quotient
    [100 * accepted / shown] rounded to the nearest integer, a tie going
    up, and [0] when nothing was shown. *)
Definition spec_acceptanceRate (m : Metrics) : Z :=
  if suggestionsShown m =? 0 then 0
  else (200 * suggestionsAccepted m + suggestionsShown m)
         / (2 * suggestionsShown m).

(** [Math.round(5 + Math.random() * 55)] for the draw [rnd]. *)
Definition simulatedResponseMinutes (rnd : float) : Z :=
  Math_round (PrimFloat.add 5%float (PrimFloat.mul rnd 55%float)).

(** ** The event loop *)

Inductive AcceptKind := Unchanged | Edited.

(** What is left to run of a handler suspended at an [await], with the
    variables of its closure. *)
Inductive Cont :=
| KLoadTickets
| KSuggest (tid : string)
| KAcceptPost (k : AcceptKind) (minutes : Z) (shownAtCall : Z)
| KAcceptMetrics (k : AcceptKind)
| KPoll.

Inductive Effect :=
| GetTickets (req : nat)
| PostSuggest (req : nat) (tid : string)
| PostAccept (req : nat) (payload : Decision)
| GetMetrics (req : nat) (total_shown : Z)
| Alert (msg : string)
| ConsoleError (msg : string).

Inductive Outcome (A : Type) :=
| Fulfilled (data : A)
| Rejected.
Arguments Fulfilled {A} data.
Arguments Rejected {A}.

Inductive Event :=
| Mount
| ClickTicket (t : Ticket)
| ChangeReply (text : string)
| InvokeSuggest
| InvokeAccept (k : AcceptKind)
| PollTick
| TicketsSettled (req : nat) (o : Outcome (option (list Ticket)))
| SuggestSettled (req : nat) (o : Outcome (option Suggestion))
| AcceptSettled (req : nat) (o : Outcome unit)
| MetricsSettled (req : nat) (o : Outcome (option MetricsData)).

(** The component together with its environment: the requests in flight,
    the next request number and the number of [Math.random] calls made. *)
Record World := mkWorld {
  ui : AppState;
  inflight : gmap nat Cont;
  next_req : nat;
  random_calls : nat
}.

Definition initialWorld : World :=
  {| ui := initialState; inflight := ∅; next_req := 0; random_calls := 0 |}.

Definition with_ui (f : AppState -> AppState) (w : World) : World :=
  {| ui := f (ui w); inflight := inflight w;
     next_req := next_req w; random_calls := random_calls w |}.

(** Issue a request whose settlement resumes [k]. *)
Definition await (k : Cont) (w : World) : World :=
  {| ui := ui w; inflight := <[next_req w := k]> (inflight w);
     next_req := S (next_req w); random_calls := random_calls w |}.

(** The settlement of request [req] removes it from the requests in
    flight. *)
Definition settle (req : nat) (w : World) : World :=
  {| ui := ui w; inflight := delete req (inflight w);
     next_req := next_req w; random_calls := random_calls w |}.

Definition draw (w : World) : World :=
  {| ui := ui w; inflight := inflight w;
     next_req := next_req w; random_calls := S (random_calls w) |}.

(** [payload?.suggestion || ""]: the empty string is falsy. *)
Definition text_or (x : option string) (d : string) : string :=
  match x with
  | Some s => if String.eqb s "" then d else s
  | None => d
  end.

(** [suggestion.tags || []]: an array is never falsy. *)
Definition tags_or (x : option (list Tag)) (d : list Tag) : list Tag :=
  match x with Some ts => ts | None => d end.

Definition acceptFailure (k : AcceptKind) : list Effect :=
  match k with
  | Unchanged => [ConsoleError "Error accepting suggestion:";
                  Alert "Failed to record accept. See console."]
  | Edited => [ConsoleError "Error accepting edited reply:";
               Alert "Failed to record edited accept. See console."]
  end.

Section Handlers.

(** The [i]-th call of [Math.random] returns [random i]. *)
Variable random : nat -> float.

(** The effect run on mount: [loadTickets]. *)
Definition loadTickets (w : World) : World * list Effect :=
  (await KLoadTickets w, [GetTickets (next_req w)]).

Definition loadTickets_settled (o : Outcome (option (list Ticket)))
    (w : World) : World * list Effect :=
  match o with
  | Fulfilled data => (with_ui (setTickets (nullish data [])) w, [])
  | Rejected => (w, [ConsoleError "Failed to load tickets:"])
  end.

(** The [onClick] of a ticket:
    [setSelectedTicket(t); setSuggestion(null); setEditedReply("")]. *)
Definition selectTicket (t : Ticket) (w : World) : World :=
  with_ui (fun s => setEditedReply ""
                      (setSuggestion None (setSelectedTicket (Some t) s))) w.

(** [handleSuggest] up to its [await]. *)
Definition handleSuggest (w : World) : World * list Effect :=
  match selectedTicket (ui w) with
  | None => (w, [])
  | Some t =>
      let w1 := with_ui (fun s => setEditedReply ""
                                    (setSuggestion None (setLoading true s))) w in
      (await (KSuggest (ticket_id t)) w1,
       [PostSuggest (next_req w) (ticket_id t)])
  end.

(** [handleSuggest] after its [await]: the [try] body, the [catch] and
    the [finally]. *)
Definition handleSuggest_settled (o : Outcome (option Suggestion))
    (w : World) : World * list Effect :=
  match o with
  | Fulfilled payload =>
      (with_ui (fun s =>
         setLoading false
           (setMetrics incrementShown
              (setEditedReply (text_or (payload ≫= sg_suggestion) "")
                 (setSuggestion payload s)))) w, [])
  | Rejected =>
      (with_ui (setLoading false) w,
       [ConsoleError "Error getting suggestion:";
        Alert "Error getting suggestion (see console)"])
  end.

(** [handleAcceptUnchanged] up to its first [await]. *)
Definition handleAcceptUnchanged (w : World) : World * list Effect :=
  match suggestion (ui w), selectedTicket (ui w) with
  | Some sg, Some t =>
      let minutes := simulatedResponseMinutes (random (random_calls w)) in
      let payload :=
        {| d_ticket_id := ticket_id t;
           action := "accepted";
           d_tags := tags_or (sg_tags sg) [];
           response_time_min := minutes;
           final_reply := sg_suggestion sg |} in
      (await (KAcceptPost Unchanged minutes (suggestionsShown (metrics (ui w))))
             (draw w),
       [PostAccept (next_req w) payload])
  | _, _ => (w, [])
  end.

(** [handleAcceptEdited] up to its first [await]. *)
Definition handleAcceptEdited (w : World) : World * list Effect :=
  match suggestion (ui w), selectedTicket (ui w) with
  | Some sg, Some t =>
      let minutes := simulatedResponseMinutes (random (random_calls w)) in
      let payload :=
        {| d_ticket_id := ticket_id t;
           action := "edited";
           d_tags := tags_or (sg_tags sg) [];
           response_time_min := minutes;
           final_reply := Some (editedReply (ui w)) |} in
      (await (KAcceptPost Edited minutes (suggestionsShown (metrics (ui w))))
             (draw w),
       [PostAccept (next_req w) payload])
  | _, _ => (w, [])
  end.

(** Either accept handler once [axios.post(`/accept`)] has settled: the
    duration is appended and the metrics are requested with the
    [suggestionsShown] of the closure, or the [catch] runs. *)
Definition accept_post_settled (k : AcceptKind) (minutes shownAtCall : Z)
    (o : Outcome unit) (w : World) : World * list Effect :=
  match o with
  | Fulfilled _ =>
      (await (KAcceptMetrics k)
             (with_ui (setMetrics (appendResponseTime minutes)) w),
       [GetMetrics (next_req w) shownAtCall])
  | Rejected => (w, acceptFailure k)
  end.

(** Either accept handler once its [axios.get(`/metrics`)] has settled. *)
Definition accept_metrics_settled (k : AcceptKind)
    (o : Outcome (option MetricsData)) (w : World) : World * list Effect :=
  match o with
  | Fulfilled data =>
      (with_ui (fun s =>
         setEditedReply ""
           (setSuggestion None
              (setMetrics (mergeAfterAccept (metricsBody data)) s))) w, [])
  | Rejected => (w, acceptFailure k)
  end.

(** The callback of [setInterval].  The effect is set up again whenever
    [metrics.suggestionsShown] changes, so the callback sends the current
    value. *)
Definition pollMetrics (w : World) : World * list Effect :=
  (await KPoll w, [GetMetrics (next_req w) (suggestionsShown (metrics (ui w)))]).

Definition pollMetrics_settled (o : Outcome (option MetricsData))
    (w : World) : World * list Effect :=
  match o with
  | Fulfilled data =>
      (with_ui (setMetrics (mergePolled (metricsBody data))) w, [])
  | Rejected => (w, [])
  end.

(** One turn of the event loop.  A settlement that matches no request in
    flight changes nothing. *)
Definition step (w : World) (ev : Event) : World * list Effect :=
  match ev with
  | Mount => loadTickets w
  | ClickTicket t => (selectTicket t w, [])
  | ChangeReply text => (with_ui (setEditedReply text) w, [])
  | InvokeSuggest => handleSuggest w
  | InvokeAccept Unchanged => handleAcceptUnchanged w
  | InvokeAccept Edited => handleAcceptEdited w
  | PollTick => pollMetrics w
  | TicketsSettled req o =>
      match inflight w !! req with
      | Some KLoadTickets => loadTickets_settled o (settle req w)
      | _ => (w, [])
      end
  | SuggestSettled req o =>
      match inflight w !! req with
      | Some (KSuggest _) => handleSuggest_settled o (settle req w)
      | _ => (w, [])
      end
  | AcceptSettled req o =>
      match inflight w !! req with
      | Some (KAcceptPost k minutes shownAtCall) =>
          accept_post_settled k minutes shownAtCall o (settle req w)
      | _ => (w, [])
      end
  | MetricsSettled req o =>
      match inflight w !! req with
      | Some (KAcceptMetrics k) => accept_metrics_settled k o (settle req w)
      | Some KPoll => pollMetrics_settled o (settle req w)
      | _ => (w, [])
      end
  end.

(** A sequence of turns, with the effects in order. *)
Fixpoint run (w : World) (evs : list Event) : World * list Effect :=
  match evs with
  | [] => (w, [])
  | ev :: evs' =>
      let '(w1, e1) := step w ev in
      let '(w2, e2) := run w1 evs' in
      (w2, e1 ++ e2)
  end.

End Handlers.

(** ** Auxiliary definitions of the proofs *)

(** A shift record is inexact when a discarded bit was set. *)
Definition inexact (r : shr_record) : bool := shr_r r || shr_s r.

(** [SF_within L H f]: [f] is a non-negative finite double whose exponent
    is not positive and whose value lies between the integers [L] and
    [H]. *)
Definition SF_within (L H : Z) (f : spec_float) : Prop :=
  match f with
  | S754_zero _ => L <= 0 <= H
  | S754_finite false m e =>
      e <= 0 /\ L * 2 ^ (- e) <= Z.pos m <= H * 2 ^ (- e)
  | _ => False
  end.

(** [SF_scaled T L H f]: [f] is a non-negative finite double on the grid
    of step 2^-T whose value, counted in units of 2^-T, lies between the
    integers [L] and [H]. *)
Definition SF_scaled (T L H : Z) (f : spec_float) : Prop :=
  match f with
  | S754_zero _ => L <= 0 <= H
  | S754_finite false m e =>
      e <= - T /\ L * 2 ^ (- e - T) <= Z.pos m <= H * 2 ^ (- e - T)
  | _ => False
  end.

(** A snapshot with the given counters and nothing else. *)
Definition countsMetrics (accepted shown : Z) : Metrics :=
  {| suggestionsShown := shown; suggestionsAccepted := accepted;
     tagCounts := []; responseTimes := [] |}.

(** The displayed rate is the rounded exact percentage, or one less when
    the exact percentage lies halfway between two integers. *)
Definition rate_ok (accepted shown : Z) : bool :=
  let r := acceptanceRate (countsMetrics accepted shown) in
  let e := spec_acceptanceRate (countsMetrics accepted shown) in
  (r =? e) || ((200 * accepted mod (2 * shown) =? shown) && (r =? e - 1)).

Definition rate_ok_upto (n : nat) : bool :=
  forallb (fun s => forallb (fun a => rate_ok (Z.of_nat a) (Z.of_nat (S s)))
                            (seq 0 (S n)))
          (seq 0 n).

(** Sample data. *)
Definition ticket1 : Ticket :=
  {| ticket_id := "T1"; subject := "Refund"; body := "I was charged twice." |}.
Definition ticket2 : Ticket :=
  {| ticket_id := "T2"; subject := "Login"; body := "I cannot sign in." |}.
Definition reply1 : Suggestion :=
  {| sg_suggestion := Some "We have refunded the second charge.";
     sg_explanation := Some "duplicate charge";
     sg_confidence := Some 0.5%float;
     sg_tags := Some [TagLabel "billing"] |}.
Definition half (_ : nat) : float := 0.5%float.

(** A suggestion for [ticket1] is shown. *)
Definition readyWorld : World :=
  fst (run half initialWorld
         [ClickTicket ticket1; InvokeSuggest;
          SuggestSettled 0 (Fulfilled (Some reply1))]).

(** [ticket2] is selected while the suggestion for [ticket1] is awaited;
    then the response for [ticket1] arrives. *)
Definition reselectTrace : list Event :=
  [ClickTicket ticket1; InvokeSuggest; ClickTicket ticket2;
   SuggestSettled 0 (Fulfilled (Some reply1))].


(** A poll is in flight. *)
Definition pollingWorld : World := fst (step half readyWorld PollTick).

(** The suggestion for [ticket1] is awaited. *)
Definition suggestPendingWorld : World :=
  fst (run half initialWorld [ClickTicket ticket1; InvokeSuggest]).

(** [ticket1] is selected and nothing else has happened. *)
Definition selectedWorld : World :=
  fst (step half initialWorld (ClickTicket ticket1)).

(** The send of a decision is awaited. *)
Definition acceptPendingWorld : World :=
  fst (step half readyWorld (InvokeAccept Unchanged)).


(** Three durations are recorded. *)
Definition threeDurations : Metrics :=
  {| suggestionsShown := 3; suggestionsAccepted := 3;
     tagCounts := []; responseTimes := [10; 20; 35] |}.

(** The mapping of scenario E, and one with a numeric tag name. *)
Definition scenarioE : Metrics :=
  {| suggestionsShown := 10; suggestionsAccepted := 3;
     tagCounts := [("billing", 5); ("bug", 5); ("ui", 2)];
     responseTimes := [] |}.
Definition numericTag : Metrics :=
  {| suggestionsShown := 10; suggestionsAccepted := 3;
     tagCounts := [("billing", 5); ("404", 5)];
     responseTimes := [] |}.

(** ** What the component renders *)

(** [{topTags || "-"}] *)
Definition topTagsShown (m : Metrics) : string :=
  if String.eqb (topTags m) "" then "-" else topTags m.

(** [x || d] on a double: [0], [-0] and [NaN] are falsy. *)
Definition float_or (x : option float) (d : float) : float :=
  match x with
  | Some f => if (PrimFloat.eqb f 0 || negb (PrimFloat.eqb f f))%bool then d else f
  | None => d
  end.

(** [Math.round((suggestion.confidence || 0) * 100)] *)
Definition confidencePercent (sg : Suggestion) : Z :=
  Math_round (PrimFloat.mul (float_or (sg_confidence sg) 0%float) 100%float).

(** The two accept buttons are rendered inside the branch of a selected
    ticket, under [suggestion && ...]. *)
Definition acceptButtonsRendered (s : AppState) : bool :=
  match selectedTicket s, suggestion s with
  | Some _, Some _ => true
  | _, _ => false
  end.

(** ** Invariants of the event loop *)

(** The duration carried by a suspended accept handler is in range. *)
Definition duration_ok (k : Cont) : Prop :=
  match k with
  | KAcceptPost _ minutes _ => 5 <= minutes <= 60
  | _ => True
  end.

Definition durations_inv (w : World) : Prop :=
  Forall (fun d => 5 <= d <= 60) (responseTimes (metrics (ui w)))
  /\ map_Forall (fun _ k => duration_ok k) (inflight w).

Definition is_suggest_fulfilment (ev : Event) : bool :=
  match ev with
  | SuggestSettled _ (Fulfilled _) => true
  | _ => false
  end.

Definition is_metrics_fulfilment (ev : Event) : bool :=
  match ev with
  | MetricsSettled _ (Fulfilled _) => true
  | _ => false
  end.

(** The request an event settles, if any. *)
Definition settled_req (ev : Event) : option nat :=
  match ev with
  | TicketsSettled req _ | SuggestSettled req _
  | AcceptSettled req _ | MetricsSettled req _ => Some req
  | _ => None
  end.

(** * Rounding of binary64 arithmetic *)

(** The shifts and the rounding of [SpecFloat] keep a value between two
    integers that are themselves doubles of the format. *)

Lemma digits2_pos_bounds (p : positive) :
  2 ^ (Z.pos (digits2_pos p) - 1) <= Z.pos p < 2 ^ Z.pos (digits2_pos p).
Proof.
  induction p as [p IH | p IH |]; cbn [digits2_pos].
  - rewrite Pos2Z.inj_succ, Z.pow_succ_r by lia.
    replace (Z.succ (Z.pos (digits2_pos p)) - 1) with (Z.succ (Z.pos (digits2_pos p) - 1)) by lia.
    rewrite Z.pow_succ_r by lia. lia.
  - rewrite Pos2Z.inj_succ, Z.pow_succ_r by lia.
    replace (Z.succ (Z.pos (digits2_pos p)) - 1) with (Z.succ (Z.pos (digits2_pos p) - 1)) by lia.
    rewrite Z.pow_succ_r by lia. lia.
  - cbn. lia.
Qed.

Lemma digits2_pos_le (p : positive) (n : Z) :
  0 <= n -> Z.pos p < 2 ^ n -> Z.pos (digits2_pos p) <= n.
Proof.
  intros Hn Hp.
  destruct (digits2_pos_bounds p) as [Hlo _].
  destruct (Z_le_gt_dec (Z.pos (digits2_pos p)) n) as [|Hgt]; [done|].
  assert (2 ^ n <= 2 ^ (Z.pos (digits2_pos p) - 1)) by (apply Z.pow_le_mono_r; lia).
  lia.
Qed.

Lemma shr_1_spec (r : shr_record) :
  0 <= shr_m r ->
  0 <= shr_m (shr_1 r) /\ shr_m (shr_1 r) = shr_m r / 2 /\
  (inexact (shr_1 r) = true -> shr_m r mod 2 <> 0 \/ inexact r = true).
Proof.
  destruct r as [m r s]; cbn [shr_m]. intros Hm.
  destruct m as [|[p|p|]|p]; try lia; cbn [shr_1 shr_m inexact shr_r shr_s].
  - split; [lia|]. split; [done|]. intros H. right. exact H.
  - split; [lia|]. split.
    + rewrite Pos2Z.inj_xI. apply Z.div_unique with (r := 1); lia.
    + intros _. left. rewrite Pos2Z.inj_xI.
      rewrite Z.add_comm, Z.mul_comm, Z.mod_add by lia. done.
  - split; [lia|]. split.
    + rewrite Pos2Z.inj_xO. apply Z.div_unique with (r := 0); lia.
    + intros H. right. exact H.
  - split; [lia|]. split; [done|]. intros _. by left.
Qed.

Lemma mod_mul_nonzero_l (a b c : Z) :
  0 < b -> 0 < c -> a mod b <> 0 -> a mod (b * c) <> 0.
Proof.
  intros Hb Hc H Hbc. apply H.
  apply Z.mod_divide in Hbc; [|lia].
  apply Z.mod_divide; [lia|].
  destruct Hbc as [q ->]. exists (q * c). ring.
Qed.

Lemma mod_mul_nonzero_r (a b c : Z) :
  0 < b -> 0 < c -> (a / b) mod c <> 0 -> a mod (b * c) <> 0.
Proof.
  intros Hb Hc H Hbc. apply H.
  apply Z.mod_divide in Hbc; [|lia].
  destruct Hbc as [q ->].
  replace (q * (b * c)) with (q * c * b) by ring.
  rewrite Z.div_mul by lia. apply Z.mod_mul. lia.
Qed.

Lemma iter_shr_1_spec (p : positive) : forall r : shr_record,
  0 <= shr_m r ->
  0 <= shr_m (SpecFloat.iter_pos shr_1 p r) /\
  shr_m (SpecFloat.iter_pos shr_1 p r) = shr_m r / 2 ^ Z.pos p /\
  (inexact (SpecFloat.iter_pos shr_1 p r) = true ->
   shr_m r mod 2 ^ Z.pos p <> 0 \/ inexact r = true).
Proof.
  induction p as [p IH | p IH |]; intros r Hr; cbn [SpecFloat.iter_pos].
  - destruct (shr_1_spec r Hr) as (H0 & H1 & H2).
    destruct (IH _ H0) as (Ha0 & Ha1 & Ha2).
    destruct (IH _ Ha0) as (Hb0 & Hb1 & Hb2).
    assert (Hp : 0 < 2 ^ Z.pos p) by (apply Z.pow_pos_nonneg; lia).
    assert (E : 2 ^ Z.pos p~1 = 2 * (2 ^ Z.pos p * 2 ^ Z.pos p)).
    { rewrite Pos2Z.inj_xI, Z.add_comm, Z.pow_add_r, Z.pow_1_r by lia.
      f_equal. rewrite <- Z.pow_add_r by lia. f_equal. lia. }
    rewrite E. split; [done|]. split.
    + rewrite Hb1, Ha1, H1, !Z.div_div by lia. done.
    + intros Hi. destruct (Hb2 Hi) as [Hm | Hi1].
      * left. apply mod_mul_nonzero_r; [lia|lia|].
        rewrite Ha1, H1 in Hm.
        apply mod_mul_nonzero_r; [lia|lia|]. done.
      * destruct (Ha2 Hi1) as [Hm | Hi2].
        -- left. apply mod_mul_nonzero_r; [lia|lia|].
           apply mod_mul_nonzero_l; [lia|lia|]. by rewrite <- H1.
        -- destruct (H2 Hi2) as [Hm | Hi3]; [|by right].
           left. apply mod_mul_nonzero_l; [lia|lia|done].
  - destruct (IH _ Hr) as (Ha0 & Ha1 & Ha2).
    destruct (IH _ Ha0) as (Hb0 & Hb1 & Hb2).
    assert (Hp : 0 < 2 ^ Z.pos p) by (apply Z.pow_pos_nonneg; lia).
    assert (E : 2 ^ Z.pos p~0 = 2 ^ Z.pos p * 2 ^ Z.pos p).
    { rewrite Pos2Z.inj_xO. rewrite <- Z.pow_add_r by lia. f_equal. lia. }
    rewrite E. split; [done|]. split.
    + rewrite Hb1, Ha1, !Z.div_div by lia. done.
    + intros Hi. destruct (Hb2 Hi) as [Hm | Hi1].
      * left. rewrite Ha1 in Hm. apply mod_mul_nonzero_r; [lia|lia|done].
      * destruct (Ha2 Hi1) as [Hm | Hi2]; [|by right].
        left. apply mod_mul_nonzero_l; [lia|lia|done].
  - rewrite Z.pow_1_r. apply shr_1_spec, Hr.
Qed.

Lemma shr_spec (r : shr_record) (e n : Z) :
  0 <= shr_m r ->
  0 <= shr_m (fst (shr r e n)) /\
  snd (shr r e n) = e + Z.max n 0 /\
  shr_m (fst (shr r e n)) = shr_m r / 2 ^ Z.max n 0 /\
  (inexact (fst (shr r e n)) = true ->
   shr_m r mod 2 ^ Z.max n 0 <> 0 \/ inexact r = true).
Proof.
  intros Hr. destruct n as [|p|p]; cbn [shr fst snd].
  - rewrite Z.max_r by lia. rewrite Z.pow_0_r, Z.div_1_r.
    repeat split; [done|lia|]. intros H. by right.
  - rewrite Z.max_l by lia.
    destruct (iter_shr_1_spec p r Hr) as (H0 & H1 & H2). done.
  - rewrite Z.max_r by lia. rewrite Z.pow_0_r, Z.div_1_r.
    repeat split; [done|lia|]. intros H. by right.
Qed.

Lemma round_nearest_even_spec (r : shr_record) :
  shr_m r <= round_nearest_even (shr_m r) (loc_of_shr_record r) <= shr_m r + 1 /\
  (inexact r = false ->
   round_nearest_even (shr_m r) (loc_of_shr_record r) = shr_m r).
Proof.
  destruct r as [m [] []]; cbn; try destruct (Z.even m); split; (lia || done).
Qed.

Lemma fexp_le_0 (x : Z) : x <= 53 -> fexp prec emax x <= 0.
Proof. unfold fexp, emin, prec, emax. lia. Qed.

Lemma Zdigits2_le (m n : Z) : 0 <= m -> 0 <= n -> m < 2 ^ n -> Zdigits2 m <= n.
Proof.
  intros Hm Hn Hlt. destruct m as [|p|p]; cbn [Zdigits2]; [lia| |lia].
  by apply digits2_pos_le.
Qed.

Lemma binary_round_aux_within (L H : Z) (mx : positive) (ex : Z) :
  0 <= L -> H < 2 ^ 53 -> ex <= 0 ->
  L * 2 ^ (- ex) <= Z.pos mx <= H * 2 ^ (- ex) ->
  SF_within L H (binary_round_aux prec emax false (Z.pos mx) ex loc_Exact).
Proof.
  intros HL HH Hex [Hlo Hhi].
  assert (HH0 : 0 <= H).
  { assert (0 < 2 ^ (- ex)) by (apply Z.pow_pos_nonneg; lia). nia. }
  unfold binary_round_aux, shr_fexp.
  cbn [shr_record_of_loc].
  set (r0 := {| shr_m := Z.pos mx; shr_r := false; shr_s := false |}).
  set (n1 := fexp prec emax (Zdigits2 (Z.pos mx) + ex) - ex).
  destruct (shr_spec r0 ex n1) as (Ha0 & Ha1 & Ha2 & Ha3); [done|].
  destruct (shr r0 ex n1) as [r1 e1]; cbn [fst snd] in *.
  subst r0; cbn [shr_m inexact shr_r shr_s orb] in Ha2, Ha3.
  set (K := Z.max n1 0) in *.
  assert (HK : 0 <= K) by lia.
  assert (He1 : e1 <= 0).
  { destruct (Z.max_spec n1 0) as [[_ E]|[_ E]]; fold K in E; [lia|].
    assert (fexp prec emax (Zdigits2 (Z.pos mx) + ex) <= 0); [|lia].
    apply fexp_le_0.
    assert (Zdigits2 (Z.pos mx) <= 53 - ex); [|lia].
    apply Zdigits2_le; [lia|lia|].
    replace (53 - ex) with (53 + - ex) by lia.
    rewrite Z.pow_add_r by lia.
    assert (0 < 2 ^ (- ex)) by (apply Z.pow_pos_nonneg; lia). nia. }
  assert (Hp1 : 0 < 2 ^ (- e1)) by (apply Z.pow_pos_nonneg; lia).
  assert (HpK : 0 < 2 ^ K) by (apply Z.pow_pos_nonneg; lia).
  assert (Esplit : 2 ^ (- ex) = 2 ^ K * 2 ^ (- e1)).
  { rewrite <- Z.pow_add_r by lia. f_equal. lia. }
  rewrite Esplit in Hlo, Hhi.
  destruct (round_nearest_even_spec r1) as [[Hb1 Hb2] Hb3].
  set (m2 := round_nearest_even (shr_m r1) (loc_of_shr_record r1)) in *.
  assert (Hm2lo : L * 2 ^ (- e1) <= m2).
  { assert (L * 2 ^ (- e1) <= shr_m r1); [|lia].
    rewrite Ha2. cbn [shr_m]. apply Z.div_le_lower_bound; [done|]. lia. }
  assert (Hm2hi : m2 <= H * 2 ^ (- e1)).
  { destruct (inexact r1) eqn:Ei.
    - destruct (Ha3 eq_refl) as [Hm|Hm]; [|done]. cbn [shr_m] in Hm.
      assert (Z.pos mx <> 2 ^ K * (H * 2 ^ (- e1))).
      { intros E. apply Hm. rewrite E, Z.mul_comm. apply Z.mod_mul. lia. }
      assert (shr_m r1 < H * 2 ^ (- e1)); [|lia].
      rewrite Ha2. cbn [shr_m]. apply Z.div_lt_upper_bound; [done|]. lia.
    - rewrite (Hb3 eq_refl), Ha2. cbn [shr_m].
      apply Z.div_le_upper_bound; [done|]. lia. }
  assert (Hm20 : 0 <= m2) by lia.
  cbn [shr_record_of_loc].
  set (r2 := {| shr_m := m2; shr_r := false; shr_s := false |}).
  set (n2 := fexp prec emax (Zdigits2 m2 + e1) - e1).
  destruct (shr_spec r2 e1 n2) as (Hc0 & Hc1 & Hc2 & _); [done|].
  destruct (shr r2 e1 n2) as [r3 e3]; cbn [fst snd] in *.
  subst r2; cbn [shr_m] in Hc2.
  set (K2 := Z.max n2 0) in *.
  assert (HK2 : 0 <= K2) by lia.
  assert (He3 : e3 <= 0).
  { destruct (Z.max_spec n2 0) as [[_ E]|[_ E]]; fold K2 in E; [lia|].
    assert (fexp prec emax (Zdigits2 m2 + e1) <= 0); [|lia].
    apply fexp_le_0.
    assert (Zdigits2 m2 <= 53 - e1); [|lia].
    apply Zdigits2_le; [lia|lia|].
    replace (53 - e1) with (53 + - e1) by lia.
    rewrite Z.pow_add_r by lia. nia. }
  assert (Hp3 : 0 < 2 ^ (- e3)) by (apply Z.pow_pos_nonneg; lia).
  assert (HpK2 : 0 < 2 ^ K2) by (apply Z.pow_pos_nonneg; lia).
  assert (Esplit2 : 2 ^ (- e1) = 2 ^ K2 * 2 ^ (- e3)).
  { rewrite <- Z.pow_add_r by lia. f_equal. lia. }
  rewrite Esplit2 in Hm2lo, Hm2hi.
  cbn [shr_m] in Hc2.
  assert (Hm3lo : L * 2 ^ (- e3) <= shr_m r3).
  { rewrite Hc2. apply Z.div_le_lower_bound; [done|]. lia. }
  assert (Hm3hi : shr_m r3 <= H * 2 ^ (- e3)).
  { rewrite Hc2. apply Z.div_le_upper_bound; [done|]. lia. }
  destruct (shr_m r3) as [|m3|m3]; cbn [SF_within].
  - split; [nia|done].
  - replace (e3 <=? emax - prec) with true
      by (symmetry; apply Z.leb_le; unfold emax, prec; lia).
    cbn [SF_within]. done.
  - lia.
Qed.

Lemma Pos_iter_xO (d m : positive) :
  Z.pos (Pos.iter xO m d) = Z.pos m * 2 ^ Z.pos d.
Proof.
  induction d as [|d IH] using Pos.peano_ind.
  - cbn. lia.
  - rewrite Pos.iter_succ, Pos2Z.inj_xO, IH, Pos2Z.inj_succ, Z.pow_succ_r by lia. ring.
Qed.

Lemma shl_align_within (L H : Z) (mx : positive) (ex ex' : Z) :
  ex <= 0 ->
  L * 2 ^ (- ex) <= Z.pos mx <= H * 2 ^ (- ex) ->
  snd (shl_align mx ex ex') <= 0 /\
  L * 2 ^ (- snd (shl_align mx ex ex')) <= Z.pos (fst (shl_align mx ex ex'))
    <= H * 2 ^ (- snd (shl_align mx ex ex')).
Proof.
  intros Hex Hb. unfold shl_align.
  destruct (ex' - ex) as [|d|d] eqn:E; cbn [fst snd]; [done|done|].
  split; [lia|].
  rewrite Pos_iter_xO.
  replace (- ex') with (- ex + Z.pos d) by lia.
  rewrite Z.pow_add_r by lia.
  assert (0 < 2 ^ Z.pos d) by (apply Z.pow_pos_nonneg; lia). nia.
Qed.

Lemma shl_align_value (mx : positive) (ex ez : Z) :
  ez <= ex ->
  Z.pos (fst (shl_align mx ex ez)) = Z.pos mx * 2 ^ (ex - ez).
Proof.
  intros Hle. unfold shl_align.
  destruct (ez - ex) as [|d|d] eqn:E; cbn [fst]; try lia.
  - replace (ex - ez) with 0 by lia. lia.
  - rewrite Pos_iter_xO. f_equal. f_equal. lia.
Qed.

Lemma SFadd_5_within (mp : positive) (ep : Z) :
  ep <= 0 -> Z.pos mp <= 55 * 2 ^ (- ep) ->
  SF_within 5 60
    (SFadd prec emax (S754_finite false 5629499534213120 (-50))
                     (S754_finite false mp ep)).
Proof.
  intros Hep Hmp. cbn [SFadd cond_Zopp].
  set (ez := Z.min (-50) ep).
  assert (Hez : ez <= 0) by lia.
  pose proof (shl_align_value 5629499534213120 (-50) ez ltac:(lia)) as E5.
  pose proof (shl_align_value mp ep ez ltac:(lia)) as Ep.
  destruct (shl_align 5629499534213120 (-50) ez) as [a ea].
  destruct (shl_align mp ep ez) as [b eb]. cbn [fst] in *.
  change (Z.pos a + Z.pos b) with (Z.pos (a + b)).
  cbn [binary_normalize]. unfold binary_round.
  assert (Hs : 5 * 2 ^ (- ez) <= Z.pos (a + b) <= 60 * 2 ^ (- ez)).
  { rewrite Pos2Z.inj_add, E5, Ep.
    assert (P1 : 0 < 2 ^ (-50 - ez)) by (apply Z.pow_pos_nonneg; lia).
    assert (P2 : 0 < 2 ^ (ep - ez)) by (apply Z.pow_pos_nonneg; lia).
    assert (P3 : 0 < 2 ^ (- ep)) by (apply Z.pow_pos_nonneg; lia).
    assert (E1 : 2 ^ (- ez) = 2 ^ 50 * 2 ^ (-50 - ez)).
    { rewrite <- Z.pow_add_r by lia. f_equal. lia. }
    assert (E2 : 2 ^ (- ez) = 2 ^ (- ep) * 2 ^ (ep - ez)).
    { rewrite <- Z.pow_add_r by lia. f_equal. lia. }
    change 5629499534213120 with (5 * 2 ^ 50).
    split.
    - rewrite E1. nia.
    - assert (Z.pos mp * 2 ^ (ep - ez) <= 55 * 2 ^ (- ez)) by (rewrite E2; nia).
      rewrite E1 in *. nia. }
  destruct (shl_align_within 5 60 (a + b) ez
              (fexp prec emax (Z.pos (digits2_pos (a + b)) + ez)) Hez Hs)
    as [Hz1 Hz2].
  destruct (shl_align (a + b) ez _) as [mz ez']. cbn [fst snd] in *.
  apply binary_round_aux_within; [lia|done|done|done].
Qed.

Lemma SFmul_55_within (m : positive) (e : Z) :
  e <= 0 -> Z.pos m <= 2 ^ (- e) ->
  SF_within 0 55
    (SFmul prec emax (S754_finite false m e)
                     (S754_finite false 7740561859543040 (-47))).
Proof.
  intros He Hm. cbn [SFmul xorb].
  apply binary_round_aux_within; [lia|done|lia|].
  replace (- (e + -47)) with (47 + - e) by lia.
  rewrite Z.pow_add_r, Pos2Z.inj_mul by lia.
  change (Z.pos 7740561859543040) with (55 * 2 ^ 47).
  assert (0 < 2 ^ (- e)) by (apply Z.pow_pos_nonneg; lia).
  split; [lia|]. nia.
Qed.

Lemma Prim2SF_5 : Prim2SF 5 = S754_finite false 5629499534213120 (-50).
Proof. vm_compute. reflexivity. Qed.
Lemma Prim2SF_55 : Prim2SF 55 = S754_finite false 7740561859543040 (-47).
Proof. vm_compute. reflexivity. Qed.
Lemma Prim2SF_1 : Prim2SF 1 = S754_finite false 4503599627370496 (-52).
Proof. vm_compute. reflexivity. Qed.
Lemma Prim2SF_0 : Prim2SF 0 = S754_zero false.
Proof. vm_compute. reflexivity. Qed.

Lemma unit_interval_SF (rnd : float) :
  (0 <=? rnd)%float = true -> (rnd <? 1)%float = true ->
  (exists s, Prim2SF rnd = S754_zero s) \/
  (exists m e, Prim2SF rnd = S754_finite false m e /\ e <= 0 /\ Z.pos m <= 2 ^ (- e)).
Proof.
  rewrite leb_spec, ltb_spec, Prim2SF_0, Prim2SF_1.
  pose proof (Prim2SF_valid rnd) as Hv.
  destruct (Prim2SF rnd) as [s|s| |s m e]; intros H0 H1.
  - left. exists s. reflexivity.
  - destruct s; discriminate.
  - discriminate.
  - right. exists m, e.
    destruct s; [discriminate|]. split; [reflexivity|].
    unfold SFltb, SFcompare in H1.
    cbn [valid_binary] in Hv. unfold bounded, canonical_mantissa in Hv.
    apply andb_true_iff in Hv as [Hc _]. apply Z.eqb_eq in Hc.
    unfold fexp, emin, prec, emax in Hc.
    destruct (digits2_pos_bounds m) as [_ Hd].
    destruct (e ?= -52) eqn:Ec; [| |discriminate].
    + apply Z.compare_eq in Ec. subst e. split; [lia|].
      assert (Hlt : (m < 4503599627370496)%positive).
      { unfold Pos.lt, Pos.compare.
        destruct (Pos.compare_cont Eq m 4503599627370496); [discriminate|reflexivity|discriminate]. }
      change (- -52) with 52.
      assert (E52 : 2 ^ 52 = 4503599627370496) by (vm_compute; reflexivity).
      rewrite E52. apply Z.lt_le_incl. exact Hlt.
    + rewrite Z.compare_lt_iff in Ec. split; [lia|].
      assert (2 ^ Z.pos (digits2_pos m) <= 2 ^ (- e)); [|lia].
      apply Z.pow_le_mono_r; lia.
Qed.

Lemma Math_round_within (L H : Z) (x : float) :
  0 < L -> SF_within L H (Prim2SF x) -> L <= Math_round x <= H.
Proof.
  intros HL. unfold Math_round.
  destruct (Prim2SF x) as [s|s| |[] m e]; cbn [SF_within]; try lia; try done.
  intros (He & Hlo & Hhi).
  assert (Hp : 0 < 2 ^ (- e)) by (apply Z.pow_pos_nonneg; lia).
  destruct (0 <=? e) eqn:E0.
  - apply Z.leb_le in E0. assert (e = 0) as -> by lia.
    change (2 ^ (- 0)) with 1 in *. change (2 ^ 0) with 1. lia.
  - replace (1 - e) with (1 + - e) by lia.
    rewrite Z.pow_add_r, Z.pow_1_r by lia. split.
    + apply Z.div_le_lower_bound; lia.
    + assert ((2 * Z.pos m + 2 ^ (- e)) / (2 * 2 ^ (- e)) < H + 1); [|lia].
      apply Z.div_lt_upper_bound; lia.
Qed.

Lemma simulatedResponseMinutes_range (rnd : float) :
  (0 <=? rnd)%float = true -> (rnd <? 1)%float = true ->
  5 <= simulatedResponseMinutes rnd <= 60.
Proof.
  intros H0 H1. unfold simulatedResponseMinutes.
  apply Math_round_within; [lia|].
  rewrite add_spec, mul_spec, Prim2SF_5, Prim2SF_55.
  destruct (unit_interval_SF rnd H0 H1) as [[s ->] | (m & e & -> & He & Hm)].
  - unfold SF64add, SF64mul. cbn [SFmul SFadd SF_within].
    split; [lia|]. split; apply Z.leb_le; vm_compute; reflexivity.
  - unfold SF64add, SF64mul.
    pose proof (SFmul_55_within m e He Hm) as Hp.
    destruct (SFmul prec emax _ _) as [s|s| |[] mp ep];
      cbn [SF_within] in Hp; [|done|done|done|].
    + cbn [SFadd SF_within].
      split; [lia|]. split; apply Z.leb_le; vm_compute; reflexivity.
    + destruct Hp as (Hep & _ & Hmp). by apply SFadd_5_within.
Qed.

(** * The sort and the enumeration of the tag mapping *)

Section SortDesc.

Implicit Types (x y : string * Z) (l : list (string * Z)).

Lemma insert_desc_Permutation x l : insert_desc x l ≡ₚ x :: l.
Proof.
  induction l as [|y l IH]; cbn [insert_desc]; [done|].
  destruct (snd y - snd x <=? 0); [done|].
  rewrite IH. apply Permutation_swap.
Qed.

Lemma sort_desc_Permutation l : sort_desc l ≡ₚ l.
Proof.
  induction l as [|x l IH]; [done|].
  cbn [sort_desc foldr]. rewrite insert_desc_Permutation.
  by apply Permutation_skip.
Qed.

Lemma insert_desc_sorted x l :
  StronglySorted (fun a b => snd b <= snd a) l ->
  StronglySorted (fun a b => snd b <= snd a) (insert_desc x l).
Proof.
  induction 1 as [|y l Hs IH Hall]; cbn [insert_desc].
  - repeat constructor.
  - destruct (snd y - snd x <=? 0) eqn:E.
    + apply Z.leb_le in E. constructor; [by constructor|].
      constructor; [lia|].
      eapply Forall_impl; [exact Hall|]. cbn. intros z Hz. lia.
    + apply Z.leb_gt in E. constructor; [done|].
      rewrite insert_desc_Permutation. constructor; [lia|done].
Qed.

Lemma sort_desc_sorted l :
  StronglySorted (fun a b => snd b <= snd a) (sort_desc l).
Proof.
  induction l as [|x l IH]; cbn [sort_desc foldr]; [constructor|].
  by apply insert_desc_sorted.
Qed.

(** Entries of the same count keep their order. *)
Lemma insert_desc_stable (c : Z) x l :
  StronglySorted (fun a b => snd b <= snd a) l ->
  filter (fun kv => snd kv = c) (insert_desc x l)
  = filter (fun kv => snd kv = c) (x :: l).
Proof.
  induction 1 as [|y l Hs IH Hall]; cbn [insert_desc]; [done|].
  destruct (snd y - snd x <=? 0) eqn:E; [done|].
  apply Z.leb_gt in E.
  rewrite (filter_cons _ y), IH, !(filter_cons _ x), (filter_cons _ y).
  repeat case_decide; try done; lia.
Qed.

Lemma sort_desc_stable (c : Z) l :
  filter (fun kv => snd kv = c) (sort_desc l)
  = filter (fun kv => snd kv = c) l.
Proof.
  induction l as [|x l IH]; [done|].
  cbn [sort_desc foldr].
  rewrite insert_desc_stable by apply sort_desc_sorted.
  rewrite !(filter_cons _ x). fold (sort_desc l). by rewrite IH.
Qed.

Lemma index_entries_no_index (o : JsObject) :
  Forall (fun kv => is_index (fst kv) = false) o -> index_entries o = [].
Proof.
  unfold index_entries, is_index.
  induction o as [|kv o IH]; intros Hall; [done|].
  apply Forall_cons in Hall as [Hkv Hall].
  cbn [omap list_omap].
  destruct (array_index (fst kv)); [done|]. by apply IH.
Qed.

Lemma filter_no_index (o : JsObject) :
  Forall (fun kv => is_index (fst kv) = false) o ->
  filter (fun kv => is_index (fst kv) = false) o = o.
Proof.
  induction o as [|kv o IH]; intros Hall; [done|].
  apply Forall_cons in Hall as [Hkv Hall].
  rewrite filter_cons_True by done. f_equal. by apply IH.
Qed.

(** A mapping without array-index keys is enumerated in creation
    order. *)
Lemma Object_entries_no_index (o : JsObject) :
  Forall (fun kv => is_index (fst kv) = false) o -> Object_entries o = o.
Proof.
  intros Hall. unfold Object_entries.
  rewrite index_entries_no_index, filter_no_index by done. done.
Qed.

End SortDesc.

(** * The handlers *)

Section EventLoop.

Variable random : nat -> float.

(** ** Resumption of a suspended handler *)

Lemma step_suggest_settled w req tid o :
  inflight w !! req = Some (KSuggest tid) ->
  step random w (SuggestSettled req o) = handleSuggest_settled o (settle req w).
Proof. intros H. cbn [step]. by rewrite H. Qed.

Lemma step_accept_settled w req k minutes shown o :
  inflight w !! req = Some (KAcceptPost k minutes shown) ->
  step random w (AcceptSettled req o)
  = accept_post_settled k minutes shown o (settle req w).
Proof. intros H. cbn [step]. by rewrite H. Qed.

Lemma step_accept_metrics_settled w req k o :
  inflight w !! req = Some (KAcceptMetrics k) ->
  step random w (MetricsSettled req o)
  = accept_metrics_settled k o (settle req w).
Proof. intros H. cbn [step]. by rewrite H. Qed.

Lemma step_poll_settled w req o :
  inflight w !! req = Some KPoll ->
  step random w (MetricsSettled req o) = pollMetrics_settled o (settle req w).
Proof. intros H. cbn [step]. by rewrite H. Qed.

(** The synchronous part of either accept handler, from a state in which
    a suggestion is shown for a selected ticket. *)
Lemma step_accept_ready w k sg t :
  suggestion (ui w) = Some sg -> selectedTicket (ui w) = Some t ->
  step random w (InvokeAccept k)
  = (await (KAcceptPost k (simulatedResponseMinutes (random (random_calls w)))
                        (suggestionsShown (metrics (ui w))))
           (draw w),
     [PostAccept (next_req w)
        {| d_ticket_id := ticket_id t;
           action := match k with Unchanged => "accepted" | Edited => "edited" end;
           d_tags := tags_or (sg_tags sg) [];
           response_time_min := simulatedResponseMinutes (random (random_calls w));
           final_reply := match k with
                          | Unchanged => sg_suggestion sg
                          | Edited => Some (editedReply (ui w))
                          end |}]).
Proof.
  intros Hs Ht. destruct k; cbn [step];
    unfold handleAcceptUnchanged, handleAcceptEdited; by rewrite Hs, Ht.
Qed.

Lemma await_lookup k w : inflight (await k w) !! next_req w = Some k.
Proof. cbn [await inflight]. apply lookup_insert_eq. Qed.

(** ** C9 *)

(** C9. Either accept handler invoked when no suggestion is shown or no
    ticket is selected, and [handleSuggest] invoked when no ticket is
    selected, return at their guard: the world (component state,
    requests in flight, random draws) is unchanged and no request, alert
    or log is issued. *)
Theorem guarded_handlers_noop (w : World) :
  ((suggestion (ui w) = None \/ selectedTicket (ui w) = None) ->
   forall k, step random w (InvokeAccept k) = (w, []))
  /\ (selectedTicket (ui w) = None -> step random w InvokeSuggest = (w, [])).
Proof.
  split.
  - intros H k. destruct k; cbn [step];
      unfold handleAcceptUnchanged, handleAcceptEdited;
      destruct H as [-> | ->]; [done| |done|]; by destruct (suggestion (ui w)).
  - intros H. cbn [step]. unfold handleSuggest. by rewrite H.
Qed.

(** ** C4 *)

(** C4. From a state in which a suggestion is shown for a selected
    ticket, an accept handler posts exactly one decision.  It carries the
    ticket identifier and the tags of the suggestion as they are (the
    empty list when the suggestion has no [tags]).  For the unchanged
    kind the action is "accepted" and the reply is the reply text of the
    suggestion, whatever the draft holds; for the edited kind the action
    is "edited" and the reply is the current draft. *)
Theorem decision_payload (w : World) (k : AcceptKind) (sg : Suggestion) (t : Ticket) :
  suggestion (ui w) = Some sg -> selectedTicket (ui w) = Some t ->
  exists payload,
    snd (step random w (InvokeAccept k)) = [PostAccept (next_req w) payload]
    /\ d_ticket_id payload = ticket_id t
    /\ d_tags payload = tags_or (sg_tags sg) []
    /\ (forall ts, sg_tags sg = Some ts -> d_tags payload = ts)
    /\ match k with
       | Unchanged => action payload = "accepted"
                      /\ final_reply payload = sg_suggestion sg
       | Edited => action payload = "edited"
                   /\ final_reply payload = Some (editedReply (ui w))
       end.
Proof.
  intros Hs Ht. rewrite (step_accept_ready w k sg t Hs Ht). cbn [snd].
  eexists. split; [reflexivity|]. cbn.
  repeat split; try done.
  - by intros ts ->.
  - by destruct k.
Qed.

(** ** C3 *)

(** C3. When the send of a decision fails, the handler runs its [catch]
    only: the metrics snapshot, and with it the list of durations, is
    what it was before the failure, no metrics request is issued, and
    the invocation itself had not touched the snapshot either. *)
Theorem failed_send_keeps_metrics (w : World) (req : nat) (k : AcceptKind)
    (minutes shown : Z) :
  inflight w !! req = Some (KAcceptPost k minutes shown) ->
  metrics (ui (fst (step random w (AcceptSettled req Rejected)))) = metrics (ui w)
  /\ snd (step random w (AcceptSettled req Rejected)) = acceptFailure k
  /\ forall w0 k0, metrics (ui (fst (step random w0 (InvokeAccept k0))))
                   = metrics (ui w0).
Proof.
  intros H. rewrite (step_accept_settled _ _ _ _ _ _ H). cbn.
  repeat split; try done.
  intros w0 k0. destruct k0; cbn [step];
    unfold handleAcceptUnchanged, handleAcceptEdited;
    destruct (suggestion (ui w0)), (selectedTicket (ui w0)); done.
Qed.

(** ** Requests in flight across other turns *)

(** A turn that does not settle request [req] leaves it in flight with
    its continuation: later requests get later numbers. *)
Lemma step_keeps_inflight (w : World) (ev : Event) (req : nat) (c : Cont) :
  inflight w !! req = Some c -> (req < next_req w)%nat ->
  settled_req ev <> Some req ->
  inflight (fst (step random w ev)) !! req = Some c
  /\ (req < next_req (fst (step random w ev)))%nat.
Proof.
  intros Hc Hlt Hev.
  assert (Ha : forall c0 w0,
            inflight w0 !! req = Some c -> (req < next_req w0)%nat ->
            inflight (await c0 w0) !! req = Some c
            /\ (req < next_req (await c0 w0))%nat).
  { intros c0 w0 H0 H1. cbn [await inflight next_req]. split; [|lia].
    rewrite lookup_insert_ne; [done|lia]. }
  assert (Hd : forall r, r <> req -> inflight (settle r w) !! req = Some c).
  { intros r Hr. cbn [settle inflight]. by rewrite lookup_delete_ne. }
  destruct ev as [|t|text| |k| |r o|r o|r o|r o]; cbn [step settled_req] in *.
  - by apply Ha.
  - done.
  - done.
  - unfold handleSuggest. destruct (selectedTicket (ui w)); [|done].
    cbn [fst]. by apply Ha.
  - destruct k; unfold handleAcceptUnchanged, handleAcceptEdited;
      destruct (suggestion (ui w)), (selectedTicket (ui w)); try done;
      cbn [fst]; by apply Ha.
  - by apply Ha.
  - assert (Hr : r <> req) by congruence. specialize (Hd r Hr).
    destruct (inflight w !! r) as [[]|]; try done. by destruct o.
  - assert (Hr : r <> req) by congruence. specialize (Hd r Hr).
    destruct (inflight w !! r) as [[]|]; try done. by destruct o.
  - assert (Hr : r <> req) by congruence. specialize (Hd r Hr).
    destruct (inflight w !! r) as [[| |k minutes shown| |]|]; try done.
    destruct o; [|done]. cbn [accept_post_settled fst]. by apply Ha.
  - assert (Hr : r <> req) by congruence. specialize (Hd r Hr).
    destruct (inflight w !! r) as [[]|]; try done; by destruct o.
Qed.

Lemma run_cons (w : World) (ev : Event) (evs : list Event) :
  fst (run random w (ev :: evs)) = fst (run random (fst (step random w ev)) evs).
Proof.
  cbn [run]. destruct (step random w ev) as [w1 e1]. cbn [fst].
  by destruct (run random w1 evs).
Qed.

Lemma run_keeps_inflight (evs : list Event) (w : World) (req : nat) (c : Cont) :
  inflight w !! req = Some c -> (req < next_req w)%nat ->
  Forall (fun ev => settled_req ev <> Some req) evs ->
  inflight (fst (run random w evs)) !! req = Some c.
Proof.
  intros Hc Hlt Hall. revert w Hc Hlt.
  induction Hall as [|ev evs Hev _ IH]; intros w Hc Hlt; [done|].
  rewrite run_cons.
  destruct (step_keeps_inflight w ev req c Hc Hlt Hev) as [Hc' Hlt'].
  by apply IH.
Qed.

(** [Math.random] is called by the accept handlers only, once in an
    invocation that passes the guard. *)
Lemma step_random_calls (w : World) (ev : Event) :
  random_calls (fst (step random w ev)) = random_calls w
  \/ ((exists k, ev = InvokeAccept k)
      /\ random_calls (fst (step random w ev)) = S (random_calls w)).
Proof.
  destruct ev as [|t|text| |k| |r o|r o|r o|r o]; cbn [step]; try by left.
  - left. unfold handleSuggest. by destruct (selectedTicket (ui w)).
  - destruct k; unfold handleAcceptUnchanged, handleAcceptEdited;
      destruct (suggestion (ui w)), (selectedTicket (ui w)); try (by left);
      right; (split; [by eexists|done]).
  - left. destruct (inflight w !! r) as [[]|]; try done. by destruct o.
  - left. destruct (inflight w !! r) as [[]|]; try done. by destruct o.
  - left. destruct (inflight w !! r) as [[]|]; try done. by destruct o.
  - left. destruct (inflight w !! r) as [[]|]; try done; by destruct o.
Qed.

(** ** C7 *)

(** C7. For a draw of [Math.random] in [0,1), an accept handler started
    while a suggestion is shown makes exactly one draw; the duration it
    computes is an integer between 5 and 60 and is the
    [response_time_min] of the decision posted.  Whatever happens before
    the send is confirmed (other handlers may run, be resumed and draw
    durations of their own), the value appended to the durations at the
    confirmation is that same integer, and the resumption makes no
    draw.  No turn other than the invocation of an accept handler calls
    [Math.random], and an invocation calls it at most once. *)
Theorem duration_drawn_once (w : World) (k : AcceptKind) (sg : Suggestion)
    (t : Ticket) (evs : list Event) :
  (0 <=? random (random_calls w))%float = true ->
  (random (random_calls w) <? 1)%float = true ->
  suggestion (ui w) = Some sg -> selectedTicket (ui w) = Some t ->
  Forall (fun ev => settled_req ev <> Some (next_req w)) evs ->
  exists payload,
    let w1 := fst (step random w (InvokeAccept k)) in
    let w' := fst (run random w1 evs) in
    let w2 := fst (step random w' (AcceptSettled (next_req w) (Fulfilled tt))) in
    snd (step random w (InvokeAccept k)) = [PostAccept (next_req w) payload]
    /\ 5 <= response_time_min payload <= 60
    /\ random_calls w1 = S (random_calls w)
    /\ responseTimes (metrics (ui w2))
       = responseTimes (metrics (ui w')) ++ [response_time_min payload]
    /\ random_calls w2 = random_calls w'
    /\ (forall w0 ev,
          random_calls (fst (step random w0 ev)) = random_calls w0
          \/ ((exists k0, ev = InvokeAccept k0)
              /\ random_calls (fst (step random w0 ev)) = S (random_calls w0))).
Proof.
  intros H0 H1 Hs Ht Hall. rewrite (step_accept_ready w k sg t Hs Ht).
  eexists. cbn [fst snd]. split; [reflexivity|].
  cbn [response_time_min]. split.
  { by apply simulatedResponseMinutes_range. }
  split; [done|].
  pose proof (await_lookup
    (KAcceptPost k (simulatedResponseMinutes (random (random_calls w)))
                 (suggestionsShown (metrics (ui w)))) (draw w)) as L.
  change (next_req (draw w)) with (next_req w) in L.
  apply (run_keeps_inflight evs) in L; [|cbn; lia|done].
  rewrite (step_accept_settled _ _ _ _ _ _ L).
  split; [done|]. split; [done|]. apply step_random_calls.
Qed.

End EventLoop.

Section Refresh.

Variable random : nat -> float.

(** ** C8 *)


(** ** C10 *)

(** C10. A fulfilled metrics request, whether issued by the poll or by
    an accept handler, keeps the local accepted count when the response
    has no [suggestions_accepted] and keeps the local tag mapping when
    it has no [tag_counts]; a response without a body keeps both. *)
Theorem refresh_keeps_missing_fields (w : World) (req : nat) (data : option MetricsData) :
  (inflight w !! req = Some KPoll
   \/ exists k, inflight w !! req = Some (KAcceptMetrics k)) ->
  let m' := metrics (ui (fst (step random w (MetricsSettled req (Fulfilled data))))) in
  (suggestions_accepted (metricsBody data) = None ->
   suggestionsAccepted m' = suggestionsAccepted (metrics (ui w)))
  /\ (tag_counts (metricsBody data) = None ->
      tagCounts m' = tagCounts (metrics (ui w)))
  /\ (data = None ->
      suggestionsAccepted m' = suggestionsAccepted (metrics (ui w))
      /\ tagCounts m' = tagCounts (metrics (ui w))).
Proof.
  intros [H | [k H]].
  - rewrite (step_poll_settled _ _ _ _ H). cbn.
    split; [by intros ->|]. split; [by intros ->|]. by intros ->.
  - rewrite (step_accept_metrics_settled _ _ _ _ _ H). cbn.
    split; [by intros ->|]. split; [by intros ->|]. by intros ->.
Qed.

(** ** C1 *)

(** C1, as the code behaves.  While a suggestion request is in flight,
    selecting a ticket clears the suggestion and the draft and leaves
    the request in flight.  The handler has no guard on its resumption:
    a fulfilled response then installs its payload as the suggestion and
    its reply text as the draft although the other ticket stays
    selected; a rejected response leaves both cleared. *)
Theorem reselect_then_response (w : World) (req : nat) (tid : string) (t2 : Ticket) :
  inflight w !! req = Some (KSuggest tid) ->
  let w1 := fst (step random w (ClickTicket t2)) in
  selectedTicket (ui w1) = Some t2
  /\ suggestion (ui w1) = None
  /\ editedReply (ui w1) = ""
  /\ inflight w1 !! req = Some (KSuggest tid)
  /\ (forall payload,
        let w2 := fst (step random w1 (SuggestSettled req (Fulfilled payload))) in
        selectedTicket (ui w2) = Some t2
        /\ suggestion (ui w2) = payload
        /\ editedReply (ui w2) = text_or (payload ≫= sg_suggestion) "")
  /\ (let w3 := fst (step random w1 (SuggestSettled req Rejected)) in
      selectedTicket (ui w3) = Some t2
      /\ suggestion (ui w3) = None
      /\ editedReply (ui w3) = "").
Proof.
  intros H.
  change (step random w (ClickTicket t2)) with (selectTicket t2 w, @nil Effect).
  cbn [fst].
  assert (H1 : inflight (selectTicket t2 w) !! req = Some (KSuggest tid))
    by exact H.
  split; [done|]. split; [done|]. split; [done|]. split; [done|].
  split.
  - intros payload. by rewrite (step_suggest_settled random _ req tid _ H1).
  - by rewrite (step_suggest_settled random _ req tid _ H1).
Qed.

(** ** C2 *)


End Refresh.

(** * The derived values *)

Lemma insert_index_Permutation (x : N * (string * Z)) (l : list (N * (string * Z))) :
  insert_index x l ≡ₚ x :: l.
Proof.
  induction l as [|y l IH]; cbn [insert_index]; [done|].
  destruct (fst x <=? fst y)%N; [done|].
  rewrite IH. apply Permutation_swap.
Qed.

(** Enumeration loses and invents no property. *)
Lemma Object_entries_Permutation (o : JsObject) : Object_entries o ≡ₚ o.
Proof.
  unfold Object_entries, index_entries, is_index.
  induction o as [|kv o IH]; [done|].
  cbn [omap list_omap]. rewrite filter_cons.
  destruct (array_index (fst kv)) as [n|].
  - rewrite decide_False by done. cbn [foldr].
    rewrite insert_index_Permutation. cbn [map snd app].
    by apply Permutation_skip.
  - rewrite decide_True by done.
    rewrite <- Permutation_middle. by apply Permutation_skip.
Qed.

Lemma rate_ok_upto_spec (n : nat) (a s : Z) :
  rate_ok_upto n = true ->
  0 <= a <= Z.of_nat n -> 1 <= s <= Z.of_nat n -> rate_ok a s = true.
Proof.
  unfold rate_ok_upto. intros H Ha Hs.
  rewrite forallb_forall in H.
  assert (Is : In (Z.to_nat (s - 1)) (seq 0 n)) by (apply in_seq; lia).
  specialize (H _ Is).
  rewrite forallb_forall in H.
  assert (Ia : In (Z.to_nat a) (seq 0 (S n))) by (apply in_seq; lia).
  specialize (H _ Ia).
  replace (Z.of_nat (S (Z.to_nat (s - 1)))) with s in H by lia.
  replace (Z.of_nat (Z.to_nat a)) with a in H by lia.
  exact H.
Qed.

Lemma rate_ok_200 : rate_ok_upto 200 = true.
Proof. vm_compute. reflexivity. Qed.

(** ** C6 *)

(** C6, as the code behaves.  The entries shown are the first entries of
    the mapping sorted by descending count: every tag of the mapping
    occurs once, counts never increase along the list, and entries of
    equal count keep the order in which the mapping enumerates them.
    That order is the creation order when no tag name is an array index,
    and then the names are those of the specification; for the mapping of
    scenario E the first two are "billing" and "bug". *)
Theorem topTagNames_order (n : nat) (m : Metrics) :
  topTagNames n m = map fst (take n (sortedTagEntries m))
  /\ sortedTagEntries m ≡ₚ tagCounts m
  /\ StronglySorted (fun a b => snd b <= snd a) (sortedTagEntries m)
  /\ (forall c, filter (fun kv => snd kv = c) (sortedTagEntries m)
                = filter (fun kv => snd kv = c) (Object_entries (tagCounts m)))
  /\ (Forall (fun kv => is_index (fst kv) = false) (tagCounts m) ->
      Object_entries (tagCounts m) = tagCounts m
      /\ topTagNames n m = spec_topTagNames n m)
  /\ topTagNames 2 scenarioE = ["billing"; "bug"].
Proof.
  unfold topTagNames, spec_topTagNames, sortedTagEntries, slice0.
  split; [done|]. split.
  { rewrite sort_desc_Permutation. apply Object_entries_Permutation. }
  split; [apply sort_desc_sorted|].
  split; [intros c; apply sort_desc_stable|].
  split; [|vm_compute; reflexivity].
  intros H. by rewrite Object_entries_no_index.
Qed.

(** * Further properties of the handlers *)

Section Lifecycle.

Variable random : nat -> float.

Lemma step_suggest_ready w t :
  selectedTicket (ui w) = Some t ->
  step random w InvokeSuggest
  = (await (KSuggest (ticket_id t))
       (with_ui (fun s => setEditedReply "" (setSuggestion None (setLoading true s))) w),
     [PostSuggest (next_req w) (ticket_id t)]).
Proof. intros H. cbn [step]. unfold handleSuggest. by rewrite H. Qed.

(** A suggestion request that succeeds.  With a ticket selected,
    [handleSuggest] issues one request for that ticket, raises [loading]
    and clears the suggestion and the draft; the fulfilled response
    installs its body as the suggestion, its reply text (or the empty
    string) as the draft, lowers [loading] and adds exactly one to the
    shown count, leaving the rest of the snapshot and the selection as
    they are.  The count is incremented even when the response has no
    body. *)
Theorem suggest_fulfilled (w : World) (t : Ticket) (payload : option Suggestion) :
  selectedTicket (ui w) = Some t ->
  let w1 := fst (step random w InvokeSuggest) in
  let w2 := fst (step random w1 (SuggestSettled (next_req w) (Fulfilled payload))) in
  snd (step random w InvokeSuggest) = [PostSuggest (next_req w) (ticket_id t)]
  /\ (loading (ui w1) = true /\ suggestion (ui w1) = None /\ editedReply (ui w1) = "")
  /\ suggestion (ui w2) = payload
  /\ editedReply (ui w2) = text_or (payload ≫= sg_suggestion) ""
  /\ loading (ui w2) = false
  /\ selectedTicket (ui w2) = Some t
  /\ metrics (ui w2)
     = {| suggestionsShown := suggestionsShown (metrics (ui w)) + 1;
          suggestionsAccepted := suggestionsAccepted (metrics (ui w));
          tagCounts := tagCounts (metrics (ui w));
          responseTimes := responseTimes (metrics (ui w)) |}
  /\ snd (step random w1 (SuggestSettled (next_req w) (Fulfilled payload))) = [].
Proof.
  intros Ht. rewrite (step_suggest_ready w t Ht). cbn [fst snd].
  match goal with
  | |- context [step random ?w1 (SuggestSettled _ _)] =>
      assert (L : inflight w1 !! next_req w = Some (KSuggest (ticket_id t)))
        by apply lookup_insert_eq
  end.
  rewrite !(step_suggest_settled random _ _ _ _ L). cbn.
  repeat split; try done.
  unfold incrementShown, num_or. f_equal.
  by destruct (suggestionsShown (metrics (ui w)) =? 0) eqn:E;
    [apply Z.eqb_eq in E; rewrite E|].
Qed.

(** A suggestion request that fails.  The rejection is logged and
    alerted; the suggestion and the draft stay cleared, [loading] is
    lowered, and the metrics snapshot is what it was before the handler
    ran. *)
Theorem suggest_rejected (w : World) (t : Ticket) :
  selectedTicket (ui w) = Some t ->
  let w1 := fst (step random w InvokeSuggest) in
  let w2 := fst (step random w1 (SuggestSettled (next_req w) Rejected)) in
  suggestion (ui w2) = None
  /\ editedReply (ui w2) = ""
  /\ loading (ui w2) = false
  /\ selectedTicket (ui w2) = Some t
  /\ metrics (ui w2) = metrics (ui w)
  /\ snd (step random w1 (SuggestSettled (next_req w) Rejected))
     = [ConsoleError "Error getting suggestion:";
        Alert "Error getting suggestion (see console)"].
Proof.
  intros Ht. rewrite (step_suggest_ready w t Ht). cbn [fst snd].
  match goal with
  | |- context [step random ?w1 (SuggestSettled _ _)] =>
      assert (L : inflight w1 !! next_req w = Some (KSuggest (ticket_id t)))
        by apply lookup_insert_eq
  end.
  rewrite !(step_suggest_settled random _ _ _ _ L). cbn.
  repeat split; done.
Qed.

(** Loading the tickets.  On mount one request is issued; its fulfilled
    response replaces the ticket list by the body, or by the empty list
    when there is no body, and touches nothing else; a rejected response
    is logged only and leaves the whole component state unchanged. *)
Theorem loadTickets_outcomes (w : World) :
  let w1 := fst (step random w Mount) in
  snd (step random w Mount) = [GetTickets (next_req w)]
  /\ ui w1 = ui w
  /\ (forall data,
        ui (fst (step random w1 (TicketsSettled (next_req w) (Fulfilled data))))
        = setTickets (nullish data []) (ui w))
  /\ ui (fst (step random w1 (TicketsSettled (next_req w) Rejected))) = ui w
  /\ snd (step random w1 (TicketsSettled (next_req w) Rejected))
     = [ConsoleError "Failed to load tickets:"].
Proof.
  cbn [step]. unfold loadTickets. cbn [fst snd].
  assert (L : inflight (await KLoadTickets w) !! next_req w = Some KLoadTickets)
    by apply lookup_insert_eq.
  rewrite L. repeat split; done.
Qed.

(** No guard makes an accept handler run once per suggestion: while a
    suggestion is shown, two invocations in a row post two decisions,
    each with a draw of its own, and both sends are in flight. *)
Theorem accept_twice_posts_twice (w : World) (k1 k2 : AcceptKind)
    (sg : Suggestion) (t : Ticket) :
  suggestion (ui w) = Some sg -> selectedTicket (ui w) = Some t ->
  exists p1 p2,
    snd (run random w [InvokeAccept k1; InvokeAccept k2])
    = [PostAccept (next_req w) p1; PostAccept (S (next_req w)) p2]
    /\ response_time_min p1 = simulatedResponseMinutes (random (random_calls w))
    /\ response_time_min p2 = simulatedResponseMinutes (random (S (random_calls w)))
    /\ d_ticket_id p1 = ticket_id t /\ d_ticket_id p2 = ticket_id t
    /\ is_Some (inflight (fst (run random w [InvokeAccept k1; InvokeAccept k2]))
                !! next_req w)
    /\ is_Some (inflight (fst (run random w [InvokeAccept k1; InvokeAccept k2]))
                !! S (next_req w)).
Proof.
  intros Hs Ht. cbn [run].
  rewrite (step_accept_ready random w k1 sg t Hs Ht).
  rewrite (step_accept_ready random (await _ (draw w)) k2 sg t Hs Ht).
  cbn. eexists _, _. split; [reflexivity|]. cbn.
  repeat split; try done.
  - rewrite lookup_insert_ne by lia. rewrite lookup_insert_eq. by eexists.
  - rewrite lookup_insert_eq. by eexists.
Qed.

(** Editing the draft and accepting it.  A change of the text area
    replaces the draft and nothing else, the suggestion included; the
    edited accept then sends exactly that text, and the unchanged accept
    still sends the reply of the suggestion. *)
Theorem edit_then_accept (w : World) (text : string) (sg : Suggestion) (t : Ticket) :
  suggestion (ui w) = Some sg -> selectedTicket (ui w) = Some t ->
  let w1 := fst (step random w (ChangeReply text)) in
  ui w1 = setEditedReply text (ui w)
  /\ suggestion (ui w1) = Some sg
  /\ (exists p, snd (step random w1 (InvokeAccept Edited)) = [PostAccept (next_req w) p]
                /\ action p = "edited" /\ final_reply p = Some text)
  /\ (exists p, snd (step random w1 (InvokeAccept Unchanged)) = [PostAccept (next_req w) p]
                /\ action p = "accepted" /\ final_reply p = sg_suggestion sg).
Proof.
  intros Hs Ht.
  change (step random w (ChangeReply text))
    with (with_ui (setEditedReply text) w, @nil Effect).
  cbn [fst]. split; [done|]. split; [done|].
  split.
  - eexists.
    rewrite (step_accept_ready random (with_ui (setEditedReply text) w) Edited sg t Hs Ht).
    split; [reflexivity|]. done.
  - eexists.
    rewrite (step_accept_ready random (with_ui (setEditedReply text) w) Unchanged sg t Hs Ht).
    split; [reflexivity|]. done.
Qed.

(** An accept that goes through.  From a shown suggestion, the send
    fulfilled and then the metrics request fulfilled: the effects are the
    decision and one metrics request carrying the shown count read when
    the handler was invoked; the final snapshot is the merge of the
    response into the old snapshot extended by the duration of the
    decision; the suggestion and the draft are cleared. *)
Theorem accept_fulfilled (w : World) (k : AcceptKind) (sg : Suggestion)
    (t : Ticket) (data : option MetricsData) :
  suggestion (ui w) = Some sg -> selectedTicket (ui w) = Some t ->
  let req := next_req w in
  let minutes := simulatedResponseMinutes (random (random_calls w)) in
  let r := run random w [InvokeAccept k; AcceptSettled req (Fulfilled tt);
                         MetricsSettled (S req) (Fulfilled data)] in
  (exists p, snd r = [PostAccept req p;
                      GetMetrics (S req) (suggestionsShown (metrics (ui w)))]
             /\ response_time_min p = minutes)
  /\ metrics (ui (fst r))
     = mergeAfterAccept (metricsBody data)
         (appendResponseTime minutes (metrics (ui w)))
  /\ suggestion (ui (fst r)) = None
  /\ editedReply (ui (fst r)) = ""
  /\ selectedTicket (ui (fst r)) = Some t.
Proof.
  intros Hs Ht. cbn [run].
  rewrite (step_accept_ready random w k sg t Hs Ht).
  pose proof (await_lookup
    (KAcceptPost k (simulatedResponseMinutes (random (random_calls w)))
                 (suggestionsShown (metrics (ui w)))) (draw w)) as L.
  change (next_req (draw w)) with (next_req w) in L.
  rewrite (step_accept_settled random _ _ _ _ _ _ L).
  cbn [accept_post_settled].
  match goal with
  | |- context [step random ?w2 (MetricsSettled _ _)] =>
      assert (L2 : inflight w2 !! S (next_req w) = Some (KAcceptMetrics k))
        by apply lookup_insert_eq
  end.
  rewrite (step_accept_metrics_settled random _ _ _ _ L2).
  cbn. split; [eexists; split; reflexivity|].
  repeat split; done.
Qed.

End Lifecycle.


(** * Invariants along traces *)

Section Traces.

Variable random : nat -> float.

(** What one turn of the event loop can do to the snapshot. *)
Lemma step_metrics_cases (w : World) (ev : Event) :
  metrics (ui (fst (step random w ev))) = metrics (ui w)
  \/ (is_suggest_fulfilment ev = true
      /\ metrics (ui (fst (step random w ev))) = incrementShown (metrics (ui w)))
  \/ (exists req k minutes shown,
        ev = AcceptSettled req (Fulfilled tt)
        /\ inflight w !! req = Some (KAcceptPost k minutes shown)
        /\ metrics (ui (fst (step random w ev)))
           = appendResponseTime minutes (metrics (ui w)))
  \/ (is_metrics_fulfilment ev = true
      /\ exists d, metrics (ui (fst (step random w ev)))
                   = mergeAfterAccept d (metrics (ui w))).
Proof.
  destruct ev as [|t|text| |k| |req o|req o|req o|req o]; cbn [step].
  - by left.
  - by left.
  - by left.
  - left. unfold handleSuggest. by destruct (selectedTicket (ui w)).
  - left. destruct k; unfold handleAcceptUnchanged, handleAcceptEdited;
      by destruct (suggestion (ui w)), (selectedTicket (ui w)).
  - by left.
  - left. destruct (inflight w !! req) as [[]|]; try done. by destruct o.
  - destruct (inflight w !! req) as [[]|]; try by left.
    destruct o; [right; left|left]; done.
  - destruct (inflight w !! req) as [[| |k minutes shown| |]|] eqn:E; try by left.
    destruct o as [[]|]; [|by left].
    right; right; left. by exists req, k, minutes, shown.
  - destruct (inflight w !! req) as [[| | |k|]|]; try by left.
    + destruct o; [|by left]. right; right; right. split; [done|]. by eexists.
    + destruct o; [|by left]. right; right; right. split; [done|]. by eexists.
Qed.

(** The shown count never decreases along a trace, whatever the metrics
    responses contain, and grows by at most one for each fulfilled
    suggestion response. *)
Theorem shown_count_monotone (w : World) (evs : list Event) :
  suggestionsShown (metrics (ui w))
  <= suggestionsShown (metrics (ui (fst (run random w evs))))
  <= suggestionsShown (metrics (ui w))
     + Z.of_nat (length (filter (fun ev => is_suggest_fulfilment ev = true) evs)).
Proof.
  revert w. induction evs as [|ev evs IH]; intros w.
  - cbn. lia.
  - rewrite run_cons. specialize (IH (fst (step random w ev))).
    rewrite filter_cons.
    assert (Hn : forall x, num_or x 0 = x).
    { intros x. unfold num_or. destruct (x =? 0) eqn:E; [|done].
      apply Z.eqb_eq in E. by rewrite E. }
    destruct (step_metrics_cases w ev)
      as [E | [[Hf E] | [(req & k & mi & sh & -> & _ & E) | [Hf [d E]]]]];
      rewrite E in IH; cbn [incrementShown appendResponseTime mergeAfterAccept
                            suggestionsShown] in IH;
      try rewrite Hn in IH; case_decide; cbn [length]; try lia; done.
Qed.

(** The list of durations only grows at its end along a trace. *)
Theorem durations_append_only (w : World) (evs : list Event) :
  responseTimes (metrics (ui w))
  `prefix_of` responseTimes (metrics (ui (fst (run random w evs)))).
Proof.
  revert w. induction evs as [|ev evs IH]; intros w; [done|].
  rewrite run_cons. etrans; [|apply IH].
  destruct (step_metrics_cases w ev)
    as [E | [[Hf E] | [(req & k & mi & sh & -> & _ & E) | [Hf [d E]]]]];
    rewrite E; cbn; try done.
  by apply prefix_app_r.
Qed.

(** The accepted count and the tag mapping are never changed locally:
    along a trace without a fulfilled metrics response they stay what
    they were. *)
Theorem server_fields_change_only_on_refresh (w : World) (evs : list Event) :
  Forall (fun ev => is_metrics_fulfilment ev = false) evs ->
  suggestionsAccepted (metrics (ui (fst (run random w evs))))
  = suggestionsAccepted (metrics (ui w))
  /\ tagCounts (metrics (ui (fst (run random w evs)))) = tagCounts (metrics (ui w)).
Proof.
  intros Hall. revert w. induction Hall as [|ev evs Hev _ IH]; intros w; [done|].
  rewrite run_cons. destruct (IH (fst (step random w ev))) as [-> ->].
  destruct (step_metrics_cases w ev)
    as [E | [[Hf E] | [(req & k & mi & sh & -> & _ & E) | [Hf [d E]]]]];
    rewrite E; cbn; try done.
  congruence.
Qed.

Hypothesis random_unit : forall i,
  (0 <=? random i)%float = true /\ (random i <? 1)%float = true.

Lemma step_durations_inv (w : World) (ev : Event) :
  durations_inv w -> durations_inv (fst (step random w ev)).
Proof.
  intros [Hd Hi]. unfold durations_inv.
  assert (Hawait : forall k w0,
            duration_ok k -> map_Forall (fun _ k => duration_ok k) (inflight w0) ->
            map_Forall (fun _ k => duration_ok k) (inflight (await k w0))).
  { intros k w0 Hk Hm. cbn [await inflight]. by apply map_Forall_insert_2. }
  assert (Hr : 5 <= simulatedResponseMinutes (random (random_calls w)) <= 60).
  { destruct (random_unit (random_calls w)).
    by apply simulatedResponseMinutes_range. }
  destruct ev as [|t|text| |k| |req o|req o|req o|req o]; cbn [step].
  - split; [done|]. by apply Hawait.
  - done.
  - done.
  - unfold handleSuggest. destruct (selectedTicket (ui w)); [|done].
    split; [done|]. cbn [fst]. by apply Hawait.
  - destruct k; unfold handleAcceptUnchanged, handleAcceptEdited;
      destruct (suggestion (ui w)), (selectedTicket (ui w)); try done;
      (split; [done|]); cbn [fst]; by apply Hawait.
  - split; [done|]. by apply Hawait.
  - destruct (inflight w !! req) as [[]|]; try done.
    destruct o; (split; [done|]); cbn; by apply map_Forall_delete.
  - destruct (inflight w !! req) as [[]|]; try done.
    destruct o; (split; [done|]); cbn; by apply map_Forall_delete.
  - destruct (inflight w !! req) as [[| |k minutes shown| |]|] eqn:E; try done.
    pose proof (map_Forall_lookup_1 _ _ _ _ Hi E) as Hk. cbn in Hk.
    destruct o as [[]|].
    + split.
      * cbn. apply Forall_app. split; [done|]. by constructor.
      * cbn. apply map_Forall_insert_2; [done|]. by apply map_Forall_delete.
    + split; [done|]. cbn. by apply map_Forall_delete.
  - destruct (inflight w !! req) as [[| | |k|]|]; try done.
    + destruct o; (split; [done|]); cbn; by apply map_Forall_delete.
    + destruct o; (split; [done|]); cbn; by apply map_Forall_delete.
Qed.

(** With every draw of [Math.random] in [0,1), every duration recorded
    along a trace from the initial state lies between 5 and 60. *)
Theorem recorded_durations_in_range (evs : list Event) :
  Forall (fun d => 5 <= d <= 60)
         (responseTimes (metrics (ui (fst (run random initialWorld evs))))).
Proof.
  assert (H : forall w, durations_inv w -> durations_inv (fst (run random w evs))).
  { induction evs as [|ev evs IH]; intros w Hw; [done|].
    rewrite run_cons. by apply IH, step_durations_inv. }
  apply (H initialWorld). split; [constructor|]. apply map_Forall_empty.
Qed.

End Traces.

(** * The merge of a metrics response *)

(** Applying the same response twice is applying it once, and of two
    responses that carry both fields the later one wins whatever the
    earlier one was; the shown count and the durations pass through.
    The [?? 0] of the polling updater is never reached, so the updater of
    the accept handlers computes the same snapshot. *)
Theorem merge_idempotent_last_wins (d1 d2 : MetricsData) (m : Metrics) :
  mergePolled d1 m = mergeAfterAccept d1 m
  /\ mergePolled d1 (mergePolled d1 m) = mergePolled d1 m
  /\ (is_Some (suggestions_accepted d2) -> is_Some (tag_counts d2) ->
      mergePolled d2 (mergePolled d1 m) = mergePolled d2 m)
  /\ suggestionsShown (mergePolled d2 (mergePolled d1 m)) = suggestionsShown m
  /\ responseTimes (mergePolled d2 (mergePolled d1 m)) = responseTimes m.
Proof.
  split; [done|]. split; [|split; [|done]].
  - unfold mergePolled. cbn.
    by destruct (suggestions_accepted d1), (tag_counts d1).
  - intros [a Ha] [tc Htc]. unfold mergePolled. cbn. by rewrite Ha, Htc.
Qed.

(** * The top tags *)

(** The entries shown are at most [n], as many as the mapping has when it
    has fewer, and no entry left out has a larger count than an entry
    shown. *)
Theorem topTags_maximal (n : nat) (m : Metrics) :
  length (topTagNames n m) = Nat.min n (length (tagCounts m))
  /\ forall x y, x ∈ take n (sortedTagEntries m) ->
                 y ∈ drop n (sortedTagEntries m) -> snd y <= snd x.
Proof.
  split.
  - unfold topTagNames, slice0, sortedTagEntries.
    rewrite length_map, length_take.
    by rewrite sort_desc_Permutation, Object_entries_Permutation.
  - intros x y Hx Hy.
    pose proof (sort_desc_sorted (Object_entries (tagCounts m))) as Hs.
    fold (sortedTagEntries m) in Hs.
    rewrite <- (take_drop n (sortedTagEntries m)) in Hs.
    revert Hs Hx Hy.
    generalize (take n (sortedTagEntries m)) (drop n (sortedTagEntries m)).
    intros l1 l2. induction l1 as [|a l1 IH]; intros Hs Hx Hy.
    + by apply elem_of_nil in Hx.
    + cbn in Hs. apply StronglySorted_inv in Hs as [Hs Hall].
      apply elem_of_cons in Hx as [->|Hx]; [|by apply IH].
      rewrite Forall_app in Hall. destruct Hall as [_ Hall].
      rewrite Forall_forall in Hall. by apply Hall.
Qed.

Lemma renderTag_nonempty (kv : string * Z) : renderTag kv <> "".
Proof.
  unfold renderTag. destruct kv as [k c]. cbn [fst snd].
  destruct k; cbn; discriminate.
Qed.

Lemma topTags_empty_iff (m : Metrics) :
  topTags m = "" <-> tagCounts m = [].
Proof.
  unfold topTags, slice0, sortedTagEntries. split.
  - intros H.
    destruct (tagCounts m) as [|kv o] eqn:E; [done|]. exfalso.
    assert (Hl : length (sort_desc (Object_entries (kv :: o))) = S (length o)).
    { by rewrite sort_desc_Permutation, Object_entries_Permutation. }
    destruct (sort_desc (Object_entries (kv :: o))) as [|x l]; [done|].
    cbn [take firstn map String.concat] in H.
    destruct (map renderTag (take 4 l)) as [|y l'].
    + by apply renderTag_nonempty in H.
    + pose proof (renderTag_nonempty x) as Hx.
      destruct (renderTag x); [done|]. discriminate.
  - intros ->. done.
Qed.

(** The dashboard shows "-" for the top tags when the mapping is empty,
    and otherwise the rendered tags, which are never the empty string. *)
Theorem topTagsShown_dash (m : Metrics) :
  (tagCounts m = [] -> topTagsShown m = "-")
  /\ (tagCounts m <> [] -> topTagsShown m = topTags m /\ topTags m <> "").
Proof.
  unfold topTagsShown. split.
  - intros E. apply topTags_empty_iff in E. by rewrite E.
  - intros N. assert (N' : topTags m <> "") by (by rewrite topTags_empty_iff).
    split; [|done]. by destruct (String.eqb_spec (topTags m) "").
Qed.

(** * Division, conversion and scaling of doubles *)

(** The rounding bound of [binary_round_aux_within] for a mantissa that
    comes with a location: the value lies in [mx, mx + 1), and is [mx]
    when the location is exact. *)
Lemma binary_round_aux_within_loc (L H mx ex : Z) (lx : location) :
  0 <= L -> H < 2 ^ 53 -> ex <= 0 -> 0 <= mx ->
  L * 2 ^ (- ex) <= mx ->
  match lx with
  | loc_Exact => mx <= H * 2 ^ (- ex)
  | loc_Inexact _ => mx + 1 <= H * 2 ^ (- ex)
  end ->
  SF_within L H (binary_round_aux prec emax false mx ex lx).
Proof.
  intros HL HH Hex Hmx Hlo Hhi.
  assert (Hp0 : 0 < 2 ^ (- ex)) by (apply Z.pow_pos_nonneg; lia).
  assert (Hhi' : mx <= H * 2 ^ (- ex)) by (destruct lx; lia).
  assert (HH0 : 0 <= H) by nia.
  unfold binary_round_aux, shr_fexp.
  set (r0 := shr_record_of_loc mx lx).
  assert (Hr0 : shr_m r0 = mx) by (subst r0; by destruct lx as [|[]]).
  assert (Hi0 : inexact r0 = true -> mx + 1 <= H * 2 ^ (- ex)).
  { subst r0. destruct lx as [|[]]; cbn; try done. }
  set (n1 := fexp prec emax (Zdigits2 mx + ex) - ex).
  destruct (shr_spec r0 ex n1) as (Ha0 & Ha1 & Ha2 & Ha3); [lia|].
  destruct (shr r0 ex n1) as [r1 e1]; cbn [fst snd] in *.
  rewrite Hr0 in Ha2, Ha3. clearbody r0.
  set (K := Z.max n1 0) in *.
  assert (HK : 0 <= K) by lia.
  assert (He1 : e1 <= 0).
  { destruct (Z.max_spec n1 0) as [[_ E]|[_ E]]; fold K in E; [lia|].
    assert (fexp prec emax (Zdigits2 mx + ex) <= 0); [|lia].
    apply fexp_le_0.
    assert (Zdigits2 mx <= 53 - ex); [|lia].
    apply Zdigits2_le; [lia|lia|].
    replace (53 - ex) with (53 + - ex) by lia.
    rewrite Z.pow_add_r by lia. nia. }
  assert (Hp1 : 0 < 2 ^ (- e1)) by (apply Z.pow_pos_nonneg; lia).
  assert (HpK : 0 < 2 ^ K) by (apply Z.pow_pos_nonneg; lia).
  assert (Esplit : 2 ^ (- ex) = 2 ^ K * 2 ^ (- e1)).
  { rewrite <- Z.pow_add_r by lia. f_equal. lia. }
  rewrite Esplit in Hlo, Hhi', Hi0.
  destruct (round_nearest_even_spec r1) as [[Hb1 Hb2] Hb3].
  set (m2 := round_nearest_even (shr_m r1) (loc_of_shr_record r1)) in *.
  assert (Hm2lo : L * 2 ^ (- e1) <= m2).
  { assert (L * 2 ^ (- e1) <= shr_m r1); [|lia].
    rewrite Ha2. apply Z.div_le_lower_bound; [done|]. lia. }
  assert (Hm2hi : m2 <= H * 2 ^ (- e1)).
  { destruct (inexact r1) eqn:Ei.
    - assert (mx < 2 ^ K * (H * 2 ^ (- e1))).
      { destruct (Ha3 eq_refl) as [Hm|Hm]; [|specialize (Hi0 Hm); lia].
        assert (mx <> 2 ^ K * (H * 2 ^ (- e1))); [|lia].
        intros E. apply Hm. rewrite E, Z.mul_comm. apply Z.mod_mul. lia. }
      assert (shr_m r1 < H * 2 ^ (- e1)); [|lia].
      rewrite Ha2. by apply Z.div_lt_upper_bound.
    - rewrite (Hb3 eq_refl), Ha2.
      apply Z.div_le_upper_bound; [done|]. lia. }
  assert (Hm20 : 0 <= m2) by lia.
  cbn [shr_record_of_loc].
  set (r2 := {| shr_m := m2; shr_r := false; shr_s := false |}).
  set (n2 := fexp prec emax (Zdigits2 m2 + e1) - e1).
  destruct (shr_spec r2 e1 n2) as (Hc0 & Hc1 & Hc2 & _); [done|].
  destruct (shr r2 e1 n2) as [r3 e3]; cbn [fst snd] in *.
  subst r2; cbn [shr_m] in Hc2.
  set (K2 := Z.max n2 0) in *.
  assert (HK2 : 0 <= K2) by lia.
  assert (He3 : e3 <= 0).
  { destruct (Z.max_spec n2 0) as [[_ E]|[_ E]]; fold K2 in E; [lia|].
    assert (fexp prec emax (Zdigits2 m2 + e1) <= 0); [|lia].
    apply fexp_le_0.
    assert (Zdigits2 m2 <= 53 - e1); [|lia].
    apply Zdigits2_le; [lia|lia|].
    replace (53 - e1) with (53 + - e1) by lia.
    rewrite Z.pow_add_r by lia. nia. }
  assert (Hp3 : 0 < 2 ^ (- e3)) by (apply Z.pow_pos_nonneg; lia).
  assert (HpK2 : 0 < 2 ^ K2) by (apply Z.pow_pos_nonneg; lia).
  assert (Esplit2 : 2 ^ (- e1) = 2 ^ K2 * 2 ^ (- e3)).
  { rewrite <- Z.pow_add_r by lia. f_equal. lia. }
  rewrite Esplit2 in Hm2lo, Hm2hi.
  assert (Hm3lo : L * 2 ^ (- e3) <= shr_m r3).
  { rewrite Hc2. apply Z.div_le_lower_bound; [done|]. lia. }
  assert (Hm3hi : shr_m r3 <= H * 2 ^ (- e3)).
  { rewrite Hc2. apply Z.div_le_upper_bound; [done|]. lia. }
  destruct (shr_m r3) as [|m3|m3]; cbn [SF_within].
  - split; [nia|done].
  - replace (e3 <=? emax - prec) with true
      by (symmetry; apply Z.leb_le; unfold emax, prec; lia).
    cbn [SF_within]. done.
  - lia.
Qed.

Lemma new_location_cases (n k : Z) :
  (k = 0 /\ new_location n k = loc_Exact)
  \/ (k <> 0 /\ exists c, new_location n k = loc_Inexact c).
Proof.
  unfold new_location, new_location_even, new_location_odd.
  destruct (Z.even n); cbv beta;
    (destruct (Z.eqb_spec k 0) as [->|Hk];
     [left; by split | right; split; [done|]; eexists; reflexivity]).
Qed.

(** The quotient of two doubles holding the integers [s] and [n] lies
    between [L] and [H] when [s / n] does. *)
Lemma SFdiv_within (L H s n : Z) (x y : spec_float) :
  0 <= L -> H < 2 ^ 53 -> 0 < n ->
  SF_within s s x -> SF_within n n y -> L * n <= s <= H * n ->
  SF_within L H (SFdiv prec emax x y).
Proof.
  intros HL HH Hn Hx Hy [Hlo Hhi].
  destruct y as [sy|sy| |[] my ey]; cbn [SF_within] in Hy; try done; [lia|].
  destruct Hy as (Hey & Hy1 & Hy2).
  destruct x as [sx|sx| |[] mx ex]; cbn [SF_within] in Hx; try done.
  { cbn. nia. }
  destruct Hx as (Hex & Hx1 & Hx2).
  cbn [SFdiv xorb]. unfold SFdiv_core_binary.
  set (e' := Z.min (fexp prec emax (Zdigits2 (Z.pos mx) + ex - (Zdigits2 (Z.pos my) + ey)))
                   (ex - ey)).
  assert (Pex : 0 < 2 ^ (- ex)) by (apply Z.pow_pos_nonneg; lia).
  assert (Pey : 0 < 2 ^ (- ey)) by (apply Z.pow_pos_nonneg; lia).
  assert (Hs0 : 0 < s).
  { destruct (Z_lt_le_dec 0 s) as [|Hs]; [done|].
    pose proof (Z.mul_nonpos_nonneg s (2 ^ (- ex)) Hs ltac:(lia)). lia. }
  assert (Hmx : Z.pos mx = s * 2 ^ (- ex)) by lia.
  assert (Hmy : Z.pos my = n * 2 ^ (- ey)) by lia.
  assert (He' : e' <= 0).
  { assert (fexp prec emax (Zdigits2 (Z.pos mx) + ex - (Zdigits2 (Z.pos my) + ey)) <= 0);
      [|lia].
    apply fexp_le_0. cbn [Zdigits2].
    destruct (digits2_pos_bounds mx) as [Hd1 _].
    destruct (digits2_pos_bounds my) as [_ Hd2].
    set (d1 := Z.pos (digits2_pos mx)) in *.
    set (d2 := Z.pos (digits2_pos my)) in *.
    assert (s < 2 ^ 53 * n) by nia.
    assert (Hlt : 2 ^ (d1 - 1 + - ey) < 2 ^ (53 + d2 + - ex)).
    { rewrite !Z.pow_add_r by lia.
      assert (Z.pos mx * 2 ^ (- ey) < 2 ^ 53 * (Z.pos my * 2 ^ (- ex))).
      { rewrite Hmx, Hmy. nia. }
      assert (0 < 2 ^ (d1 - 1)) by (apply Z.pow_pos_nonneg; lia).
      assert (0 < 2 ^ d2) by (apply Z.pow_pos_nonneg; lia).
      nia. }
    apply Z.pow_lt_mono_r_iff in Hlt; lia. }
  set (sh := ex - ey - e').
  assert (Hsh : 0 <= sh) by lia.
  set (m' := match sh with
             | 0 => Z.pos mx
             | Z.pos _ => Z.shiftl (Z.pos mx) sh
             | Z.neg _ => 0
             end).
  assert (Hm' : m' = Z.pos mx * 2 ^ sh).
  { subst m'. destruct sh eqn:E; [lia| |lia]. by rewrite Z.shiftl_mul_pow2. }
  clearbody m'.
  pose proof (Z_div_mod m' (Z.pos my) ltac:(lia)) as Hdm.
  destruct (Z.div_eucl m' (Z.pos my)) as [q r]. destruct Hdm as [Hq Hr].
  assert (Psh : 0 < 2 ^ sh) by (apply Z.pow_pos_nonneg; lia).
  assert (Pe' : 0 < 2 ^ (- e')) by (apply Z.pow_pos_nonneg; lia).
  assert (E1 : 2 ^ (- ex) * 2 ^ sh = 2 ^ (- ey) * 2 ^ (- e')).
  { rewrite <- !Z.pow_add_r by lia. f_equal. lia. }
  assert (Em' : m' = s * (2 ^ (- ey) * 2 ^ (- e'))).
  { rewrite Hm', Hmx, <- E1. ring. }
  assert (Hq0 : 0 <= q) by nia.
  apply binary_round_aux_within_loc; try done.
  - assert (Z.pos my * (L * 2 ^ (- e')) <= m'); [|nia].
    rewrite Hmy, Em'. nia.
  - assert (Hle : m' <= Z.pos my * (H * 2 ^ (- e'))).
    { rewrite Hmy, Em'. nia. }
    destruct (new_location_cases (Z.pos my) r) as [[-> ->]|[Hr0 [c ->]]].
    + nia.
    + assert (m' <> Z.pos my * (H * 2 ^ (- e'))); [|nia].
      intros E. apply Hr0.
      assert (EX : Z.pos my * (H * 2 ^ (- e') - q) = r) by lia.
      set (X := H * 2 ^ (- e') - q) in *.
      destruct (Z.eq_dec X 0) as [E0|N0]; [rewrite E0 in EX; lia|].
      assert (1 <= X \/ X <= -1) as [HX|HX] by lia; nia.
Qed.

(** The double of an integer below 2^53 is that integer. *)
Lemma Prim2SF_Z2Number (z : Z) :
  0 <= z < 2 ^ 63 ->
  Prim2SF (Z2Number z) = binary_normalize prec emax z 0 false.
Proof.
  intros Hz. unfold Z2Number.
  pose proof (of_uint63_spec (Uint63.of_Z z)) as E.
  rewrite Uint63.of_Z_spec in E.
  rewrite Z.mod_small in E by (unfold Uint63.wB, Uint63.size; cbn; lia).
  rewrite <- E. by rewrite SF2Prim_Prim2SF.
Qed.

Lemma Z2Number_exact (z : Z) :
  0 <= z < 2 ^ 53 -> SF_within z z (Prim2SF (Z2Number z)).
Proof.
  intros Hz. rewrite Prim2SF_Z2Number by lia.
  destruct z as [|p|p]; [done| |lia].
  cbn [binary_normalize]. unfold binary_round.
  destruct (shl_align_within (Z.pos p) (Z.pos p) p 0
              (fexp prec emax (Z.pos (digits2_pos p) + 0)) ltac:(lia) ltac:(cbn; lia))
    as [H1 H2].
  destruct (shl_align p 0 _) as [mz ez]. cbn [fst snd] in *.
  apply binary_round_aux_within; [lia|lia|done|done].
Qed.

(** Scaling a double between [L] and [H] by the integer [c]. *)
Lemma SFmul_within (L H c : Z) (x y : spec_float) :
  0 <= L -> 0 < c -> H * c < 2 ^ 53 ->
  SF_within L H x -> SF_within c c y ->
  SF_within (L * c) (H * c) (SFmul prec emax x y).
Proof.
  intros HL Hc HH Hx Hy.
  destruct y as [sy|sy| |[] my ey]; cbn [SF_within] in Hy; try done; [lia|].
  destruct Hy as (Hey & Hy1 & Hy2).
  destruct x as [sx|sx| |[] mx ex]; cbn [SF_within] in Hx; try done.
  { cbn. nia. }
  destruct Hx as (Hex & Hx1 & Hx2).
  cbn [SFmul xorb].
  assert (Pex : 0 < 2 ^ (- ex)) by (apply Z.pow_pos_nonneg; lia).
  assert (Pey : 0 < 2 ^ (- ey)) by (apply Z.pow_pos_nonneg; lia).
  apply binary_round_aux_within; [nia|done|lia|].
  replace (- (ex + ey)) with (- ex + - ey) by lia.
  rewrite Z.pow_add_r, Pos2Z.inj_mul by lia.
  assert (Z.pos my = c * 2 ^ (- ey)) as -> by lia.
  split; nia.
Qed.

Lemma Math_round_between (L H : Z) (x : float) :
  SF_within L H (Prim2SF x) -> L <= Math_round x <= H.
Proof.
  unfold Math_round.
  destruct (Prim2SF x) as [s|s| |[] m e]; cbn [SF_within]; try lia; try done.
  intros (He & Hlo & Hhi).
  assert (Hp : 0 < 2 ^ (- e)) by (apply Z.pow_pos_nonneg; lia).
  destruct (0 <=? e) eqn:E0.
  - apply Z.leb_le in E0. assert (e = 0) as -> by lia.
    change (2 ^ (- 0)) with 1 in *. change (2 ^ 0) with 1. lia.
  - replace (1 - e) with (1 + - e) by lia.
    rewrite Z.pow_add_r, Z.pow_1_r by lia. split.
    + apply Z.div_le_lower_bound; lia.
    + assert ((2 * Z.pos m + 2 ^ (- e)) / (2 * 2 ^ (- e)) < H + 1); [|lia].
      apply Z.div_lt_upper_bound; lia.
Qed.

Lemma foldl_add_bounds (L H : Z) (l : list Z) (acc : Z) :
  Forall (fun d => L <= d <= H) l ->
  acc + L * Z.of_nat (length l) <= foldl Z.add acc l
  <= acc + H * Z.of_nat (length l).
Proof.
  intros Hall. revert acc. induction Hall as [|d l Hd _ IH]; intros acc.
  - cbn. lia.
  - cbn [foldl length]. specialize (IH (acc + d)). lia.
Qed.

(** ** The average response time *)

(** The average shown lies between any two bounds of the recorded
    durations (as long as their number and their sum stay below 2^53); it is 0 when none
    is recorded. *)
Theorem avgResponseTime_between (m : Metrics) (L H : Z) :
  0 <= L ->
  Forall (fun d => L <= d <= H) (responseTimes m) ->
  Z.of_nat (length (responseTimes m)) < 2 ^ 53 ->
  H * Z.of_nat (length (responseTimes m)) < 2 ^ 53 ->
  (responseTimes m = [] /\ avgResponseTime m = 0)
  \/ (responseTimes m <> [] /\ L <= avgResponseTime m <= H).
Proof.
  intros HL Hall Hlen Hsum. unfold avgResponseTime.
  destruct (responseTimes m) as [|d l] eqn:E; [by left|]. right.
  split; [done|].
  set (n := Z.of_nat (length (d :: l))) in *.
  assert (Hn : 0 < n) by (subst n; cbn [length]; lia).
  replace (0 <? n) with true by (symmetry; by apply Z.ltb_lt).
  pose proof (foldl_add_bounds L H (d :: l) 0 Hall) as Hb. fold n in Hb.
  set (s := foldl Z.add 0 (d :: l)) in *.
  assert (HH : 0 <= H).
  { apply Forall_cons in Hall as [? _]. lia. }
  apply Math_round_between. rewrite div_spec.
  apply (SFdiv_within L H s n); try done.
  - nia.
  - apply Z2Number_exact. nia.
  - apply Z2Number_exact. lia.
Qed.

(** ** The acceptance rate as a percentage *)

Lemma Prim2SF_Z2Number_100 :
  Prim2SF (Z2Number 100) = S754_finite false 7036874417766400 (-46).
Proof. vm_compute. reflexivity. Qed.

(** Whenever the accepted count does not exceed the shown count (both
    below 2^53), the rate shown is between 0 and 100; it is 0 when
    nothing was accepted and 100 when everything shown was accepted. *)
Theorem acceptanceRate_percentage (m : Metrics) :
  0 <= suggestionsAccepted m <= suggestionsShown m ->
  suggestionsShown m < 2 ^ 53 ->
  0 <= acceptanceRate m <= 100
  /\ (suggestionsAccepted m = 0 -> acceptanceRate m = 0)
  /\ (0 < suggestionsShown m -> suggestionsAccepted m = suggestionsShown m ->
      acceptanceRate m = 100).
Proof.
  intros Ha Hs. unfold acceptanceRate.
  destruct (Z.eqb_spec (suggestionsShown m) 0) as [E|E]; [lia|].
  assert (Hn : num_or (suggestionsAccepted m) 0 = suggestionsAccepted m).
  { unfold num_or. by destruct (Z.eqb_spec (suggestionsAccepted m) 0) as [->|]. }
  rewrite Hn.
  assert (H100 : SF_within 100 100 (Prim2SF (Z2Number 100))).
  { rewrite Prim2SF_Z2Number_100. cbn. split; [lia|].
    split; apply Z.leb_le; vm_compute; reflexivity. }
  assert (Hq : forall L H, 0 <= L -> H <= 1 ->
            L * suggestionsShown m <= suggestionsAccepted m <= H * suggestionsShown m ->
            L * 100 <= Math_round
              (PrimFloat.mul (PrimFloat.div (Z2Number (suggestionsAccepted m))
                                            (Z2Number (suggestionsShown m)))
                             (Z2Number 100)) <= H * 100).
  { intros L H HL HH Hb. apply Math_round_between.
    rewrite mul_spec, div_spec.
    apply SFmul_within; [done|lia| |  |done].
    - assert (E53 : 100 < 2 ^ 53) by (apply Z.ltb_lt; vm_compute; reflexivity). lia.
    - apply (SFdiv_within L H (suggestionsAccepted m) (suggestionsShown m)).
      + done.
      + assert (E53 : 1 < 2 ^ 53) by (apply Z.ltb_lt; vm_compute; reflexivity). lia.
      + lia.
      + apply Z2Number_exact. lia.
      + apply Z2Number_exact. lia.
      + done. }
  split; [|split].
  - apply (Hq 0 1); lia.
  - intros E0. pose proof (Hq 0 0 ltac:(lia) ltac:(lia) ltac:(lia)). lia.
  - intros H0 E1. pose proof (Hq 1 1 ltac:(lia) ltac:(lia) ltac:(lia)). lia.
Qed.

(** ** The confidence shown *)

Lemma unit_closed_SF (x : float) :
  (0 <=? x)%float = true -> (x <=? 1)%float = true ->
  SF_within 0 1 (Prim2SF x).
Proof.
  rewrite !leb_spec, Prim2SF_0, Prim2SF_1.
  pose proof (Prim2SF_valid x) as Hv.
  destruct (Prim2SF x) as [s|s| |s m e]; intros H0 H1.
  - cbn. lia.
  - destruct s; discriminate.
  - discriminate.
  - destruct s; [discriminate|]. cbn [SF_within].
    unfold SFleb, SFcompare in H1.
    cbn [valid_binary] in Hv. unfold bounded, canonical_mantissa in Hv.
    apply andb_true_iff in Hv as [Hc _]. apply Z.eqb_eq in Hc.
    unfold fexp, emin, prec, emax in Hc.
    destruct (digits2_pos_bounds m) as [_ Hd].
    assert (E52 : 2 ^ 52 = 4503599627370496) by (vm_compute; reflexivity).
    destruct (e ?= -52) eqn:Ec; [| |discriminate].
    + apply Z.compare_eq in Ec. subst e. split; [lia|].
      assert (Hle : (m <= 4503599627370496)%positive).
      { unfold Pos.le, Pos.compare.
        destruct (Pos.compare_cont Eq m 4503599627370496); [discriminate|discriminate|done]. }
      change (- -52) with 52. rewrite E52.
      split; [apply Z.leb_le; reflexivity|].
      rewrite Z.mul_1_l. exact Hle.
    + rewrite Z.compare_lt_iff in Ec. split; [lia|].
      assert (2 ^ Z.pos (digits2_pos m) <= 2 ^ (- e)).
      { apply Z.pow_le_mono_r; lia. }
      split; [|lia].
      rewrite Z.mul_0_l. apply Pos2Z.is_nonneg.
Qed.

Lemma Prim2SF_100 : Prim2SF 100 = S754_finite false 7036874417766400 (-46).
Proof. vm_compute. reflexivity. Qed.

(** For a suggestion whose confidence is absent or a number between 0
    and 1, the percentage shown is between 0 and 100. *)
Theorem confidencePercent_range (sg : Suggestion) :
  (forall c, sg_confidence sg = Some c ->
             (0 <=? c)%float = true /\ (c <=? 1)%float = true) ->
  0 <= confidencePercent sg <= 100.
Proof.
  intros Hc. unfold confidencePercent.
  assert (H100 : SF_within 100 100 (Prim2SF 100)).
  { rewrite Prim2SF_100. cbn. split; [lia|].
    split; apply Z.leb_le; vm_compute; reflexivity. }
  assert (E53 : 100 < 2 ^ 53) by (apply Z.ltb_lt; vm_compute; reflexivity).
  assert (Hx : SF_within 0 1 (Prim2SF (float_or (sg_confidence sg) 0))).
  { unfold float_or. destruct (sg_confidence sg) as [c|]; [|rewrite Prim2SF_0; cbn; lia].
    destruct (Hc c eq_refl) as [H0 H1].
    destruct (_ || _)%bool; [rewrite Prim2SF_0; cbn; lia|].
    by apply unit_closed_SF. }
  apply (Math_round_between (0 * 100) (1 * 100)).
  rewrite mul_spec. apply SFmul_within; try done; lia.
Qed.

(** * Rounding against bounds with binary digits *)

Lemma fexp_le_T (x T : Z) :
  0 <= T <= 1074 -> x <= 53 - T -> fexp prec emax x <= - T.
Proof. unfold fexp, emin, prec, emax. lia. Qed.

(** The rounding of a mantissa with a location keeps a value between two
    multiples of 2^-T that are doubles of the format. *)
Lemma binary_round_aux_scaled (T L H mx ex : Z) (lx : location) :
  0 <= T <= 1074 -> 0 <= L -> H < 2 ^ 53 -> ex <= - T -> 0 <= mx ->
  L * 2 ^ (- ex - T) <= mx ->
  match lx with
  | loc_Exact => mx <= H * 2 ^ (- ex - T)
  | loc_Inexact _ => mx + 1 <= H * 2 ^ (- ex - T)
  end ->
  SF_scaled T L H (binary_round_aux prec emax false mx ex lx).
Proof.
  intros HT HL HH Hex Hmx Hlo Hhi.
  assert (Hp0 : 0 < 2 ^ (- ex - T)) by (apply Z.pow_pos_nonneg; lia).
  assert (Hhi' : mx <= H * 2 ^ (- ex - T)) by (destruct lx; lia).
  assert (HH0 : 0 <= H) by nia.
  unfold binary_round_aux, shr_fexp.
  set (r0 := shr_record_of_loc mx lx).
  assert (Hr0 : shr_m r0 = mx) by (subst r0; by destruct lx as [|[]]).
  assert (Hi0 : inexact r0 = true -> mx + 1 <= H * 2 ^ (- ex - T)).
  { subst r0. destruct lx as [|[]]; cbn; try done. }
  set (n1 := fexp prec emax (Zdigits2 mx + ex) - ex).
  destruct (shr_spec r0 ex n1) as (Ha0 & Ha1 & Ha2 & Ha3); [lia|].
  destruct (shr r0 ex n1) as [r1 e1]; cbn [fst snd] in *.
  rewrite Hr0 in Ha2, Ha3. clearbody r0.
  set (K := Z.max n1 0) in *.
  assert (HK : 0 <= K) by lia.
  assert (He1 : e1 <= - T).
  { destruct (Z.max_spec n1 0) as [[_ E]|[_ E]]; fold K in E; [lia|].
    assert (fexp prec emax (Zdigits2 mx + ex) <= - T); [|lia].
    apply fexp_le_T; [done|].
    assert (Zdigits2 mx <= 53 - T - ex); [|lia].
    apply Zdigits2_le; [lia|lia|].
    replace (53 - T - ex) with (53 + (- ex - T)) by lia.
    rewrite Z.pow_add_r by lia. nia. }
  assert (Hp1 : 0 < 2 ^ (- e1 - T)) by (apply Z.pow_pos_nonneg; lia).
  assert (HpK : 0 < 2 ^ K) by (apply Z.pow_pos_nonneg; lia).
  assert (Esplit : 2 ^ (- ex - T) = 2 ^ K * 2 ^ (- e1 - T)).
  { rewrite <- Z.pow_add_r by lia. f_equal. lia. }
  rewrite Esplit in Hlo, Hhi', Hi0.
  destruct (round_nearest_even_spec r1) as [[Hb1 Hb2] Hb3].
  set (m2 := round_nearest_even (shr_m r1) (loc_of_shr_record r1)) in *.
  assert (Hm2lo : L * 2 ^ (- e1 - T) <= m2).
  { assert (L * 2 ^ (- e1 - T) <= shr_m r1); [|lia].
    rewrite Ha2. apply Z.div_le_lower_bound; [done|]. lia. }
  assert (Hm2hi : m2 <= H * 2 ^ (- e1 - T)).
  { destruct (inexact r1) eqn:Ei.
    - assert (mx < 2 ^ K * (H * 2 ^ (- e1 - T))).
      { destruct (Ha3 eq_refl) as [Hm|Hm]; [|specialize (Hi0 Hm); lia].
        assert (mx <> 2 ^ K * (H * 2 ^ (- e1 - T))); [|lia].
        intros E. apply Hm. rewrite E, Z.mul_comm. apply Z.mod_mul. lia. }
      assert (shr_m r1 < H * 2 ^ (- e1 - T)); [|lia].
      rewrite Ha2. by apply Z.div_lt_upper_bound.
    - rewrite (Hb3 eq_refl), Ha2.
      apply Z.div_le_upper_bound; [done|]. lia. }
  assert (Hm20 : 0 <= m2) by lia.
  cbn [shr_record_of_loc].
  set (r2 := {| shr_m := m2; shr_r := false; shr_s := false |}).
  set (n2 := fexp prec emax (Zdigits2 m2 + e1) - e1).
  destruct (shr_spec r2 e1 n2) as (Hc0 & Hc1 & Hc2 & _); [done|].
  destruct (shr r2 e1 n2) as [r3 e3]; cbn [fst snd] in *.
  subst r2; cbn [shr_m] in Hc2.
  set (K2 := Z.max n2 0) in *.
  assert (HK2 : 0 <= K2) by lia.
  assert (He3 : e3 <= - T).
  { destruct (Z.max_spec n2 0) as [[_ E]|[_ E]]; fold K2 in E; [lia|].
    assert (fexp prec emax (Zdigits2 m2 + e1) <= - T); [|lia].
    apply fexp_le_T; [done|].
    assert (Zdigits2 m2 <= 53 - T - e1); [|lia].
    apply Zdigits2_le; [lia|lia|].
    replace (53 - T - e1) with (53 + (- e1 - T)) by lia.
    rewrite Z.pow_add_r by lia. nia. }
  assert (Hp3 : 0 < 2 ^ (- e3 - T)) by (apply Z.pow_pos_nonneg; lia).
  assert (HpK2 : 0 < 2 ^ K2) by (apply Z.pow_pos_nonneg; lia).
  assert (Esplit2 : 2 ^ (- e1 - T) = 2 ^ K2 * 2 ^ (- e3 - T)).
  { rewrite <- Z.pow_add_r by lia. f_equal. lia. }
  rewrite Esplit2 in Hm2lo, Hm2hi.
  assert (Hm3lo : L * 2 ^ (- e3 - T) <= shr_m r3).
  { rewrite Hc2. apply Z.div_le_lower_bound; [done|]. lia. }
  assert (Hm3hi : shr_m r3 <= H * 2 ^ (- e3 - T)).
  { rewrite Hc2. apply Z.div_le_upper_bound; [done|]. lia. }
  destruct (shr_m r3) as [|m3|m3]; cbn [SF_scaled].
  - split; [nia|done].
  - replace (e3 <=? emax - prec) with true
      by (symmetry; apply Z.leb_le; unfold emax, prec; lia).
    cbn [SF_scaled]. done.
  - lia.
Qed.


(** The quotient of two doubles holding the integers [s] and [n], against
    bounds with [T] binary digits. *)
Lemma SFdiv_scaled (T L H s n : Z) (x y : spec_float) :
  0 <= T <= 1074 -> 0 <= L -> H < 2 ^ 53 -> 0 < n ->
  SF_within s s x -> SF_within n n y -> L * n <= s * 2 ^ T <= H * n ->
  SF_scaled T L H (SFdiv prec emax x y).
Proof.
  intros HT HL HH Hn Hx Hy [Hlo Hhi].
  assert (PT : 0 < 2 ^ T) by (apply Z.pow_pos_nonneg; lia).
  destruct y as [sy|sy| |[] my ey]; cbn [SF_within] in Hy; try done; [lia|].
  destruct Hy as (Hey & Hy1 & Hy2).
  destruct x as [sx|sx| |[] mx ex]; cbn [SF_within] in Hx; try done.
  { cbn. nia. }
  destruct Hx as (Hex & Hx1 & Hx2).
  cbn [SFdiv xorb]. unfold SFdiv_core_binary.
  set (e' := Z.min (fexp prec emax (Zdigits2 (Z.pos mx) + ex - (Zdigits2 (Z.pos my) + ey)))
                   (ex - ey)).
  assert (Pex : 0 < 2 ^ (- ex)) by (apply Z.pow_pos_nonneg; lia).
  assert (Pey : 0 < 2 ^ (- ey)) by (apply Z.pow_pos_nonneg; lia).
  assert (Hs0 : 0 < s).
  { destruct (Z_lt_le_dec 0 s) as [|Hs]; [done|].
    pose proof (Z.mul_nonpos_nonneg s (2 ^ (- ex)) Hs ltac:(lia)). lia. }
  assert (Hmx : Z.pos mx = s * 2 ^ (- ex)) by lia.
  assert (Hmy : Z.pos my = n * 2 ^ (- ey)) by lia.
  assert (He' : e' <= - T).
  { assert (fexp prec emax (Zdigits2 (Z.pos mx) + ex - (Zdigits2 (Z.pos my) + ey)) <= - T);
      [|lia].
    apply fexp_le_T; [done|]. cbn [Zdigits2].
    destruct (digits2_pos_bounds mx) as [Hd1 _].
    destruct (digits2_pos_bounds my) as [_ Hd2].
    set (d1 := Z.pos (digits2_pos mx)) in *.
    set (d2 := Z.pos (digits2_pos my)) in *.
    assert (s * 2 ^ T < 2 ^ 53 * n) by nia.
    assert (Hlt : 2 ^ (d1 - 1 + - ey + T) < 2 ^ (53 + d2 + - ex)).
    { rewrite !Z.pow_add_r by lia.
      assert (Z.pos mx * 2 ^ (- ey) * 2 ^ T < 2 ^ 53 * (Z.pos my * 2 ^ (- ex))).
      { rewrite Hmx, Hmy. nia. }
      set (A := 2 ^ (- ey) * 2 ^ T) in *.
      set (B := 2 ^ 53 * 2 ^ (- ex)) in *.
      assert (PA : 0 < A) by (subst A; lia).
      assert (PB : 0 < B) by (subst B; lia).
      apply Z.le_lt_trans with (Z.pos mx * A).
      { replace (2 ^ (d1 - 1) * 2 ^ (- ey) * 2 ^ T) with (2 ^ (d1 - 1) * A)
          by (subst A; ring).
        apply Z.mul_le_mono_nonneg_r; lia. }
      apply Z.lt_le_trans with (B * Z.pos my).
      { subst A B. lia. }
      replace (2 ^ 53 * 2 ^ d2 * 2 ^ (- ex)) with (B * 2 ^ d2) by (subst B; ring).
      apply Z.mul_le_mono_nonneg_l; lia. }
    apply Z.pow_lt_mono_r_iff in Hlt; lia. }
  set (sh := ex - ey - e').
  assert (Hsh : 0 <= sh) by lia.
  set (m' := match sh with
             | 0 => Z.pos mx
             | Z.pos _ => Z.shiftl (Z.pos mx) sh
             | Z.neg _ => 0
             end).
  assert (Hm' : m' = Z.pos mx * 2 ^ sh).
  { subst m'. destruct sh eqn:E; [lia| |lia]. by rewrite Z.shiftl_mul_pow2. }
  clearbody m'.
  pose proof (Z_div_mod m' (Z.pos my) ltac:(lia)) as Hdm.
  destruct (Z.div_eucl m' (Z.pos my)) as [q r]. destruct Hdm as [Hq Hr].
  assert (Psh : 0 < 2 ^ sh) by (apply Z.pow_pos_nonneg; lia).
  assert (Pe' : 0 < 2 ^ (- e' - T)) by (apply Z.pow_pos_nonneg; lia).
  assert (E1 : 2 ^ (- ex) * 2 ^ sh = 2 ^ (- ey) * (2 ^ T * 2 ^ (- e' - T))).
  { rewrite <- !Z.pow_add_r by lia. f_equal. lia. }
  assert (Em' : m' = s * 2 ^ T * (2 ^ (- ey) * 2 ^ (- e' - T))).
  { rewrite Hm', Hmx. transitivity (s * (2 ^ (- ex) * 2 ^ sh)); [ring|].
    rewrite E1. ring. }
  assert (Hq0 : 0 <= q) by nia.
  apply binary_round_aux_scaled; try done.
  - assert (Z.pos my * (L * 2 ^ (- e' - T)) <= m'); [|nia].
    rewrite Hmy, Em'. nia.
  - assert (Hle : m' <= Z.pos my * (H * 2 ^ (- e' - T))).
    { rewrite Hmy, Em'. nia. }
    destruct (new_location_cases (Z.pos my) r) as [[-> ->]|[Hr0 [c ->]]].
    + nia.
    + assert (m' <> Z.pos my * (H * 2 ^ (- e' - T))); [|nia].
      intros E. apply Hr0.
      assert (EX : Z.pos my * (H * 2 ^ (- e' - T) - q) = r) by lia.
      set (X := H * 2 ^ (- e' - T) - q) in *.
      destruct (Z.eq_dec X 0) as [E0|N0]; [rewrite E0 in EX; lia|].
      assert (1 <= X \/ X <= -1) as [HX|HX] by lia; nia.
Qed.

(** Scaling by the integer [c] a double bounded with [T] binary digits. *)
Lemma SFmul_scaled (T L H c : Z) (x y : spec_float) :
  0 <= T <= 1074 -> 0 <= L -> 0 < c -> H * c < 2 ^ 53 ->
  SF_scaled T L H x -> SF_within c c y ->
  SF_scaled T (L * c) (H * c) (SFmul prec emax x y).
Proof.
  intros HT HL Hc HH Hx Hy.
  destruct y as [sy|sy| |[] my ey]; cbn [SF_within] in Hy; try done; [lia|].
  destruct Hy as (Hey & Hy1 & Hy2).
  destruct x as [sx|sx| |[] mx ex]; cbn [SF_scaled] in Hx; try done.
  { cbn. nia. }
  destruct Hx as (Hex & Hx1 & Hx2).
  cbn [SFmul xorb].
  assert (Pex : 0 < 2 ^ (- ex - T)) by (apply Z.pow_pos_nonneg; lia).
  assert (Pey : 0 < 2 ^ (- ey)) by (apply Z.pow_pos_nonneg; lia).
  apply binary_round_aux_scaled; [done|nia|done|lia|lia| |].
  - replace (- (ex + ey) - T) with ((- ex - T) + - ey) by lia.
    rewrite Z.pow_add_r, Pos2Z.inj_mul by lia.
    assert (Z.pos my = c * 2 ^ (- ey)) as -> by lia. nia.
  - replace (- (ex + ey) - T) with ((- ex - T) + - ey) by lia.
    rewrite Z.pow_add_r, Pos2Z.inj_mul by lia.
    assert (Z.pos my = c * 2 ^ (- ey)) as -> by lia. nia.
Qed.

(** [Math.round] of a double bounded with [T] binary digits lies between
    the roundings of the bounds. *)
Lemma Math_round_scaled (T L H : Z) (x : float) :
  0 <= T ->
  SF_scaled T L H (Prim2SF x) ->
  (2 * L + 2 ^ T) / (2 * 2 ^ T) <= Math_round x <= (2 * H + 2 ^ T) / (2 * 2 ^ T).
Proof.
  intros HT. unfold Math_round.
  assert (PT : 0 < 2 ^ T) by (apply Z.pow_pos_nonneg; lia).
  destruct (Prim2SF x) as [s|s| |[] m e]; cbn [SF_scaled]; try done.
  - intros [HL HH]. split.
    + assert ((2 * L + 2 ^ T) / (2 * 2 ^ T) < 1); [|lia].
      apply Z.div_lt_upper_bound; lia.
    + apply Z.div_pos; lia.
  - intros (He & Hlo & Hhi).
    assert (Hp : 0 < 2 ^ (- e - T)) by (apply Z.pow_pos_nonneg; lia).
    assert (Ee : 2 ^ (- e) = 2 ^ T * 2 ^ (- e - T)).
    { rewrite <- Z.pow_add_r by lia. f_equal. lia. }
    assert (Hval : (2 * L + 2 ^ T) / (2 * 2 ^ T)
                   <= (2 * Z.pos m + 2 ^ (- e)) / (2 * 2 ^ (- e))
                   <= (2 * H + 2 ^ T) / (2 * 2 ^ T)).
    { rewrite Ee.
      rewrite <- (Z.div_mul_cancel_r (2 * L + 2 ^ T) (2 * 2 ^ T) (2 ^ (- e - T))) by lia.
      rewrite <- (Z.div_mul_cancel_r (2 * H + 2 ^ T) (2 * 2 ^ T) (2 ^ (- e - T))) by lia.
      replace (2 * (2 ^ T * 2 ^ (- e - T))) with (2 * 2 ^ T * 2 ^ (- e - T)) by ring.
      split; apply Z.div_le_mono; nia. }
    destruct (0 <=? e) eqn:E0.
    + apply Z.leb_le in E0. assert (e = 0) by lia. subst e.
      assert (T = 0) by lia. subst T.
      change (2 ^ (- 0)) with 1 in *. change (2 ^ 0) with 1 in *.
      assert (E : (2 * Z.pos m + 1) / (2 * 1) = Z.pos m).
      { symmetry. apply Z.div_unique with (r := 1); lia. }
      rewrite E in Hval. lia.
    + replace (1 - e) with (1 + - e) by lia.
      rewrite Z.pow_add_r, Z.pow_1_r by lia. exact Hval.
Qed.

Lemma div_le_cross (n1 d1 n2 d2 : Z) :
  0 < d1 -> 0 < d2 -> n1 * d2 <= n2 * d1 -> n1 / d1 <= n2 / d2.
Proof.
  intros H1 H2 H. apply Z.div_le_lower_bound; [done|].
  pose proof (Z.mul_div_le n1 d1 H1) as Hq.
  assert (d1 * (d2 * (n1 / d1)) <= d1 * n2); [|nia].
  replace (d1 * (d2 * (n1 / d1))) with (d2 * (d1 * (n1 / d1))) by ring.
  apply Z.le_trans with (d2 * n1); [|lia].
  apply Z.mul_le_mono_nonneg_l; lia.
Qed.

(** ** C5 *)

(** C5, as the code behaves.  The rate is [Math.round] of the double
    [(accepted / shown) * 100], the quotient being rounded before it is
    scaled.  For counts that are integers below 2^53 and a number [T] of
    binary digits (at least 7, and small enough for 100 times the
    truncated quotient to stay below 2^53), let [q] be accepted / shown
    truncated to [T] binary digits.  The rate lies between the roundings
    of [100 q] and of [100 (q + 2^-T)]; so does the exact percentage
    rounded to the nearest integer; and the two bounds differ by at most
    one.  Hence the rate is the rounded exact percentage unless that
    percentage lies within 100 / 2^T of a half-integer, where either
    neighbour may come out.  For counts up to 200 the only deviation is
    a percentage lying exactly halfway between two integers, which may
    come out as the lower one.  The rate is 0 for every accepted count
    when nothing was shown, and 30 for 3 accepted of 10 shown. *)
Theorem acceptanceRate_rounding (m : Metrics) (T : Z) :
  0 <= suggestionsAccepted m < 2 ^ 53 ->
  0 < suggestionsShown m < 2 ^ 53 ->
  7 <= T <= 1074 ->
  100 * (suggestionsAccepted m * 2 ^ T / suggestionsShown m + 1) < 2 ^ 53 ->
  let q := suggestionsAccepted m * 2 ^ T / suggestionsShown m in
  let lo := (200 * q + 2 ^ T) / (2 * 2 ^ T) in
  let hi := (200 * (q + 1) + 2 ^ T) / (2 * 2 ^ T) in
  lo <= acceptanceRate m <= hi
  /\ lo <= spec_acceptanceRate m <= hi
  /\ hi <= lo + 1
  /\ (forall m0,
        0 <= suggestionsAccepted m0 <= 200 -> 0 <= suggestionsShown m0 <= 200 ->
        acceptanceRate m0 = spec_acceptanceRate m0
        \/ (200 * suggestionsAccepted m0 mod (2 * suggestionsShown m0)
            = suggestionsShown m0
            /\ acceptanceRate m0 = spec_acceptanceRate m0 - 1))
  /\ (forall m0, suggestionsShown m0 = 0 -> acceptanceRate m0 = 0)
  /\ acceptanceRate (countsMetrics 3 10) = 30.
Proof.
  intros Ha Hs HT Hq q lo hi.
  set (a := suggestionsAccepted m) in *. set (s := suggestionsShown m) in *.
  assert (PT : 0 < 2 ^ T) by (apply Z.pow_pos_nonneg; lia).
  assert (P7 : 2 ^ 7 <= 2 ^ T) by (apply Z.pow_le_mono_r; lia).
  change (2 ^ 7) with 128 in P7.
  assert (Hq0 : 0 <= q) by (subst q; apply Z.div_pos; nia).
  assert (Hql : q * s <= a * 2 ^ T).
  { pose proof (Z.mul_div_le (a * 2 ^ T) s) as H. fold q in H. lia. }
  assert (Hqh : a * 2 ^ T < (q + 1) * s).
  { pose proof (Z.mul_succ_div_gt (a * 2 ^ T) s) as H. fold q in H. lia. }
  split; [|split; [|split; [|split; [|split]]]].
  - unfold acceptanceRate. fold s a.
    destruct (Z.eqb_spec s 0) as [E|_]; [lia|].
    assert (Hn : num_or a 0 = a).
    { unfold num_or. by destruct (Z.eqb_spec a 0) as [->|]. }
    rewrite Hn.
    assert (H100 : SF_within 100 100 (Prim2SF (Z2Number 100))).
    { rewrite Prim2SF_Z2Number_100. cbn. split; [lia|].
      split; apply Z.leb_le; vm_compute; reflexivity. }
    assert (Hb : SF_scaled T (q * 100) ((q + 1) * 100)
                   (Prim2SF (PrimFloat.mul (PrimFloat.div (Z2Number a) (Z2Number s))
                                           (Z2Number 100)))).
    { rewrite mul_spec, div_spec.
      apply SFmul_scaled; [lia|done|lia|lia| |done].
      apply (SFdiv_scaled T q (q + 1) a s); [lia|done|lia|lia| | |lia].
      - by apply Z2Number_exact.
      - apply Z2Number_exact. lia. }
    apply (Math_round_scaled T) in Hb; [|lia].
    subst lo hi.
    replace (200 * q) with (2 * (q * 100)) by ring.
    replace (200 * (q + 1)) with (2 * ((q + 1) * 100)) by ring.
    exact Hb.
  - unfold spec_acceptanceRate. fold s a.
    destruct (Z.eqb_spec s 0) as [E|_]; [lia|].
    subst lo hi. split; apply div_le_cross; lia.
  - subst lo hi.
    apply Z.le_trans with ((200 * q + 2 ^ T + 1 * (2 * 2 ^ T)) / (2 * 2 ^ T)).
    + apply Z.div_le_mono; lia.
    + rewrite Z.div_add by lia. lia.
  - intros m0 Ha0 Hs0.
    destruct (Z.eq_dec (suggestionsShown m0) 0) as [E|E].
    + left. unfold acceptanceRate, spec_acceptanceRate. by rewrite E.
    + pose proof (rate_ok_upto_spec 200 (suggestionsAccepted m0)
                    (suggestionsShown m0) rate_ok_200) as H.
      unfold rate_ok in H.
      change (acceptanceRate (countsMetrics (suggestionsAccepted m0)
                                            (suggestionsShown m0)))
        with (acceptanceRate m0) in H.
      change (spec_acceptanceRate (countsMetrics (suggestionsAccepted m0)
                                                 (suggestionsShown m0)))
        with (spec_acceptanceRate m0) in H.
      specialize (H ltac:(lia) ltac:(lia)).
      apply orb_true_iff in H as [H|H].
      * left. by apply Z.eqb_eq.
      * right. apply andb_true_iff in H as [H1 H2].
        split; by apply Z.eqb_eq.
  - intros m0 E. unfold acceptanceRate. by rewrite E.
  - vm_compute. reflexivity.
Qed.

(** * The controls and the handlers *)

Section Controls.

Variable random : nat -> float.

(** The accept buttons are rendered exactly when the guard of the accept
    handlers passes: a click on a rendered button posts one decision, and
    where no button is rendered the handler would do nothing. *)
Theorem accept_buttons_match_guard (w : World) (k : AcceptKind) :
  (acceptButtonsRendered (ui w) = true ->
   exists p, snd (step random w (InvokeAccept k)) = [PostAccept (next_req w) p])
  /\ (acceptButtonsRendered (ui w) = false ->
      step random w (InvokeAccept k) = (w, [])).
Proof.
  unfold acceptButtonsRendered.
  destruct (selectedTicket (ui w)) as [t|] eqn:Et,
           (suggestion (ui w)) as [sg|] eqn:Es; split; intros H; try done.
  - rewrite (step_accept_ready random w k sg t Es Et). by eexists.
  - destruct k; cbn [step]; unfold handleAcceptUnchanged, handleAcceptEdited;
      by rewrite Es.
  - destruct k; cbn [step]; unfold handleAcceptUnchanged, handleAcceptEdited;
      by rewrite Es, Et.
  - destruct k; cbn [step]; unfold handleAcceptUnchanged, handleAcceptEdited;
      by rewrite Es.
Qed.

(** A decision is posted by nothing but the invocation of an accept
    handler whose guard passes: no settlement, poll, selection or edit
    ever posts one, and an invocation posts it under the next request
    number with the duration of the current draw. *)
Theorem decision_only_on_accept (w : World) (ev : Event) (req : nat) (p : Decision) :
  PostAccept req p ∈ snd (step random w ev) ->
  (exists k, ev = InvokeAccept k)
  /\ acceptButtonsRendered (ui w) = true
  /\ req = next_req w
  /\ response_time_min p = simulatedResponseMinutes (random (random_calls w)).
Proof.
  unfold acceptButtonsRendered.
  destruct ev as [|t|text| |k| |r o|r o|r o|r o]; cbn [step].
  - cbn. intros H. apply list_elem_of_singleton in H. discriminate.
  - cbn. intros H. by apply elem_of_nil in H.
  - cbn. intros H. by apply elem_of_nil in H.
  - unfold handleSuggest. destruct (selectedTicket (ui w)); cbn; intros H.
    + apply list_elem_of_singleton in H. discriminate.
    + by apply elem_of_nil in H.
  - destruct k; unfold handleAcceptUnchanged, handleAcceptEdited;
      destruct (suggestion (ui w)), (selectedTicket (ui w)); cbn; intros H;
      try (by apply elem_of_nil in H);
      apply list_elem_of_singleton in H; injection H as -> ->;
      (split; [by eexists|done]).
  - cbn. intros H. apply list_elem_of_singleton in H. discriminate.
  - destruct (inflight w !! r) as [[]|]; cbn; try (intros H; by apply elem_of_nil in H).
    destruct o; cbn; intros H; [by apply elem_of_nil in H|].
    apply list_elem_of_singleton in H. discriminate.
  - destruct (inflight w !! r) as [[]|]; cbn; try (intros H; by apply elem_of_nil in H).
    destruct o; cbn; intros H; [by apply elem_of_nil in H|].
    apply elem_of_cons in H as [H|H]; [discriminate|].
    apply list_elem_of_singleton in H. discriminate.
  - destruct (inflight w !! r) as [[| |k mi sh| |]|]; cbn;
      try (intros H; by apply elem_of_nil in H).
    destruct o; cbn; intros H.
    + apply list_elem_of_singleton in H. discriminate.
    + destruct k; cbn in H;
        (apply elem_of_cons in H as [H|H]; [discriminate|]);
        apply list_elem_of_singleton in H; discriminate.
  - destruct (inflight w !! r) as [[| | |k|]|]; cbn;
      try (intros H; by apply elem_of_nil in H).
    + destruct o; cbn; intros H; [by apply elem_of_nil in H|].
      destruct k; cbn in H;
        (apply elem_of_cons in H as [H|H]; [discriminate|]);
        apply list_elem_of_singleton in H; discriminate.
    + destruct o; cbn; intros H; by apply elem_of_nil in H.
Qed.

End Controls.

(** * Instances and counterexamples *)

Lemma guarded_handlers_noop_witness :
  (forall k, step half initialWorld (InvokeAccept k) = (initialWorld, []))
  /\ step half initialWorld InvokeSuggest = (initialWorld, []).
Proof.
  destruct (guarded_handlers_noop half initialWorld) as [A B].
  split; [apply A; left; reflexivity | apply B; reflexivity].
Defined.

(** Scenario B. *)
Lemma decision_payload_witness :
  exists payload,
    snd (step half readyWorld (InvokeAccept Unchanged)) = [PostAccept 1 payload]
    /\ d_tags payload = [TagLabel "billing"]
    /\ action payload = "accepted"
    /\ final_reply payload = sg_suggestion reply1.
Proof.
  destruct (decision_payload half readyWorld Unchanged reply1 ticket1
              ltac:(vm_compute; reflexivity) ltac:(vm_compute; reflexivity))
    as (p & E & _ & _ & Ht & Ha & Hf).
  exists p. split; [exact E|]. split; [exact (Ht _ eq_refl)|]. by split.
Defined.

Lemma failed_send_keeps_metrics_witness :
  inflight acceptPendingWorld !! 1%nat
  = Some (KAcceptPost Unchanged 33 1)
  /\ metrics (ui (fst (step half acceptPendingWorld (AcceptSettled 1 Rejected))))
     = metrics (ui acceptPendingWorld).
Proof.
  assert (H : inflight acceptPendingWorld !! 1%nat
              = Some (KAcceptPost Unchanged 33 1))
    by (vm_compute; reflexivity).
  split; [exact H|].
  exact (proj1 (failed_send_keeps_metrics half acceptPendingWorld 1 Unchanged 33 1 H)).
Defined.

Lemma duration_drawn_once_witness :
  exists payload,
    snd (step half readyWorld (InvokeAccept Edited)) = [PostAccept 1 payload]
    /\ 5 <= response_time_min payload <= 60
    /\ responseTimes (metrics (ui (fst (step half
          (fst (run half (fst (step half readyWorld (InvokeAccept Edited)))
                  [InvokeAccept Unchanged; PollTick]))
          (AcceptSettled 1 (Fulfilled tt))))))
       = [response_time_min payload].
Proof.
  destruct (duration_drawn_once half readyWorld Edited reply1 ticket1
              [InvokeAccept Unchanged; PollTick]
              ltac:(vm_compute; reflexivity) ltac:(vm_compute; reflexivity)
              ltac:(vm_compute; reflexivity) ltac:(vm_compute; reflexivity)
              ltac:(repeat constructor; discriminate))
    as (p & E & Hr & _ & Ha & _).
  exists p. split; [exact E|]. split; [exact Hr|exact Ha].
Defined.


Lemma refresh_keeps_missing_fields_witness :
  tagCounts (metrics (ui (fst (step half pollingWorld
    (MetricsSettled 1 (Fulfilled (Some {| suggestions_accepted := Some 4;
                                          tag_counts := None |})))))))
  = tagCounts (metrics (ui pollingWorld)).
Proof.
  refine (proj1 (proj2 (refresh_keeps_missing_fields half pollingWorld 1
            (Some {| suggestions_accepted := Some 4; tag_counts := None |}) _)) _).
  - left. vm_compute. reflexivity.
  - reflexivity.
Defined.

Lemma reselect_then_response_witness :
  inflight suggestPendingWorld !! 0%nat = Some (KSuggest "T1")
  /\ suggestion (ui (fst (step half suggestPendingWorld (ClickTicket ticket2)))) = None.
Proof.
  assert (H : inflight suggestPendingWorld !! 0%nat = Some (KSuggest "T1"))
    by (vm_compute; reflexivity).
  split; [exact H|].
  exact (proj1 (proj2 (reselect_then_response half suggestPendingWorld 0 "T1" ticket2 H))).
Defined.


Lemma acceptanceRate_rounding_witness :
  57 <= acceptanceRate (countsMetrics 23 40) <= 58
  /\ 57 <= spec_acceptanceRate (countsMetrics 23 40) <= 58.
Proof.
  pose proof (acceptanceRate_rounding (countsMetrics 23 40) 46
                ltac:(vm_compute; split; [discriminate|reflexivity])
                ltac:(vm_compute; split; reflexivity)
                ltac:(lia) ltac:(vm_compute; reflexivity)) as H.
  cbv zeta in H. destruct H as (Hr & Hs & _).
  split; [exact Hr|exact Hs].
Defined.

Lemma topTagNames_order_witness :
  topTagNames 2 scenarioE = spec_topTagNames 2 scenarioE.
Proof.
  refine (proj2 (proj1 (proj2 (proj2 (proj2 (proj2
            (topTagNames_order 2 scenarioE))))) _)).
  repeat constructor.
Defined.

(** C1 fails as stated: after [ticket2] is selected, the response to the
    request made for [ticket1] installs its suggestion and its draft. *)
Lemma stale_response_overwrites :
  inflight suggestPendingWorld !! 0%nat = Some (KSuggest (ticket_id ticket1))
  /\ ticket_id ticket1 <> ticket_id ticket2
  /\ selectedTicket (ui (fst (run half initialWorld reselectTrace))) = Some ticket2
  /\ suggestion (ui (fst (run half initialWorld reselectTrace))) = Some reply1
  /\ editedReply (ui (fst (run half initialWorld reselectTrace)))
     = "We have refunded the second charge.".
Proof. vm_compute. repeat split; done. Qed.



(** C5 fails as stated: 23 accepted of 40 shown is 57.5 percent, which
    rounds to 58; the doubles give 0.575 * 100 = 57.49999999999999 and
    the rate shown is 57. *)
Lemma acceptanceRate_23_of_40 :
  acceptanceRate (countsMetrics 23 40) = 57
  /\ spec_acceptanceRate (countsMetrics 23 40) = 58
  /\ 2 * (100 * 23) = (57 + 58) * 40.
Proof. vm_compute. repeat split; done. Qed.

(** C6 fails as stated: the tag "404" was created after "billing" with the
    same count, and is listed first. *)
Lemma numeric_tag_listed_first :
  topTagNames 2 numericTag = ["404"; "billing"]
  /\ spec_topTagNames 2 numericTag = ["billing"; "404"]
  /\ topTags numericTag = "404 (5), billing (5)".
Proof. vm_compute. repeat split; done. Qed.

(** ** Instances of the further properties *)

(** Scenario A. *)
Lemma suggest_fulfilled_witness :
  suggestionsShown (metrics (ui selectedWorld)) = 0
  /\ suggestionsShown (metrics (ui (fst (run half selectedWorld
        [InvokeSuggest; SuggestSettled 0 (Fulfilled (Some reply1))])))) = 1.
Proof.
  split; [reflexivity|].
  pose proof (suggest_fulfilled half selectedWorld ticket1 (Some reply1) eq_refl) as H.
  cbv zeta in H. destruct H as (_ & _ & _ & _ & _ & _ & Hm & _).
  change (fst (run half selectedWorld
                 [InvokeSuggest; SuggestSettled 0 (Fulfilled (Some reply1))]))
    with (fst (step half (fst (step half selectedWorld InvokeSuggest))
                 (SuggestSettled (next_req selectedWorld) (Fulfilled (Some reply1))))).
  by rewrite Hm.
Defined.

Lemma suggest_rejected_witness :
  metrics (ui (fst (step half (fst (step half selectedWorld InvokeSuggest))
                      (SuggestSettled (next_req selectedWorld) Rejected))))
  = metrics (ui selectedWorld).
Proof.
  pose proof (suggest_rejected half selectedWorld ticket1 eq_refl) as H.
  cbv zeta in H. exact (proj1 (proj2 (proj2 (proj2 (proj2 H))))).
Defined.

Lemma accept_twice_posts_twice_witness :
  exists p1 p2,
    snd (run half readyWorld [InvokeAccept Unchanged; InvokeAccept Edited])
    = [PostAccept (next_req readyWorld) p1; PostAccept (S (next_req readyWorld)) p2].
Proof.
  destruct (accept_twice_posts_twice half readyWorld Unchanged Edited reply1 ticket1
              ltac:(vm_compute; reflexivity) ltac:(vm_compute; reflexivity))
    as (p1 & p2 & E & _).
  by exists p1, p2.
Defined.

(** Scenario C. *)
Lemma edit_then_accept_witness :
  exists p,
    snd (step half (fst (step half readyWorld (ChangeReply "new text")))
           (InvokeAccept Edited)) = [PostAccept (next_req readyWorld) p]
    /\ action p = "edited" /\ final_reply p = Some "new text".
Proof.
  pose proof (edit_then_accept half readyWorld "new text" reply1 ticket1
                ltac:(vm_compute; reflexivity) ltac:(vm_compute; reflexivity)) as H.
  cbv zeta in H. exact (proj1 (proj2 (proj2 H))).
Defined.

Lemma accept_fulfilled_witness :
  suggestion (ui (fst (run half readyWorld
    [InvokeAccept Unchanged; AcceptSettled (next_req readyWorld) (Fulfilled tt);
     MetricsSettled (S (next_req readyWorld)) (Fulfilled None)]))) = None.
Proof.
  pose proof (accept_fulfilled half readyWorld Unchanged reply1 ticket1 None
                ltac:(vm_compute; reflexivity) ltac:(vm_compute; reflexivity)) as H.
  cbv zeta in H. exact (proj1 (proj2 (proj2 H))).
Defined.

Lemma server_fields_change_only_on_refresh_witness :
  tagCounts (metrics (ui (fst (run half initialWorld
    [ClickTicket ticket1; InvokeSuggest; SuggestSettled 0 (Fulfilled (Some reply1))]))))
  = tagCounts (metrics (ui initialWorld)).
Proof.
  refine (proj2 (server_fields_change_only_on_refresh half initialWorld _ _)).
  repeat constructor.
Defined.

Lemma half_unit (i : nat) :
  (0 <=? half i)%float = true /\ (half i <? 1)%float = true.
Proof. split; reflexivity. Defined.

Lemma recorded_durations_in_range_witness :
  Forall (fun d => 5 <= d <= 60)
    (responseTimes (metrics (ui (fst (run half initialWorld
      [ClickTicket ticket1; InvokeSuggest; SuggestSettled 0 (Fulfilled (Some reply1));
       InvokeAccept Unchanged; AcceptSettled 1 (Fulfilled tt)]))))).
Proof. exact (recorded_durations_in_range half half_unit _). Defined.

Lemma merge_idempotent_last_wins_witness :
  mergePolled {| suggestions_accepted := Some 2; tag_counts := Some [("ui", 1)] |}
    (mergePolled {| suggestions_accepted := Some 7; tag_counts := None |} initialMetrics)
  = mergePolled {| suggestions_accepted := Some 2; tag_counts := Some [("ui", 1)] |}
      initialMetrics.
Proof.
  refine (proj1 (proj2 (proj2 (merge_idempotent_last_wins
            {| suggestions_accepted := Some 7; tag_counts := None |}
            {| suggestions_accepted := Some 2; tag_counts := Some [("ui", 1)] |}
            initialMetrics))) _ _); by eexists.
Defined.

Lemma topTags_maximal_witness : 2 <= 5.
Proof.
  refine (proj2 (topTags_maximal 2 scenarioE) ("bug", 5) ("ui", 2) _ _).
  - vm_compute. apply list_elem_of_In. right. by left.
  - vm_compute. apply list_elem_of_In. by left.
Defined.

Lemma topTagsShown_dash_witness : topTagsShown initialMetrics = "-".
Proof. exact (proj1 (topTagsShown_dash initialMetrics) eq_refl). Defined.

Lemma avgResponseTime_between_witness : 5 <= avgResponseTime threeDurations <= 60.
Proof.
  destruct (avgResponseTime_between threeDurations 5 60) as [[E _]|[_ H]].
  - lia.
  - repeat constructor; cbn; lia.
  - reflexivity.
  - reflexivity.
  - discriminate E.
  - exact H.
Defined.

Lemma acceptanceRate_percentage_witness : 0 <= acceptanceRate scenarioE <= 100.
Proof.
  refine (proj1 (acceptanceRate_percentage scenarioE _ _)).
  - cbn. lia.
  - reflexivity.
Defined.

Lemma confidencePercent_range_witness : 0 <= confidencePercent reply1 <= 100.
Proof.
  apply confidencePercent_range. intros c E. injection E as <-.
  split; reflexivity.
Defined.

Lemma accept_buttons_match_guard_witness :
  step half initialWorld (InvokeAccept Edited) = (initialWorld, []).
Proof. exact (proj2 (accept_buttons_match_guard half initialWorld Edited) eq_refl). Defined.

Lemma decision_only_on_accept_witness :
  acceptButtonsRendered (ui readyWorld) = true.
Proof.
  refine (proj1 (proj2 (decision_only_on_accept half readyWorld (InvokeAccept Unchanged)
            (next_req readyWorld)
            {| d_ticket_id := "T1"; action := "accepted";
               d_tags := [TagLabel "billing"]; response_time_min := 33;
               final_reply := Some "We have refunded the second charge." |} _))).
  vm_compute. apply list_elem_of_In. by left.
Defined.
